(** * jyrobot: colours, the camera device and the world's robot registry

    A shallow embedding of [jyrobot/utils.py], [jyrobot/devices/cameras.py]
    and [World.add_robot] of [jyrobot/world.py]; then of the wall functions
    of [jyrobot/world.py] and of the drawing interface of
    [jyrobot/backends/base.py] as [jyrobot/backends/pil.py] implements it.

    Conventions of the embedding.
    - Python [int] is [Z].  Python [float] is the exact rational [Q]: the
      arithmetic is the real-number reading of the source, without binary64
      rounding; [float("inf")] and [float("-inf")] are the two extra points
      of [ext].  Numeric equality ([==] of Python) is [Qeq].  The
      properties proved on this reading avoid the identities that rounding
      breaks (regrouped sums, cancelled products): they are stated with
      the expressions of the source as they are written, or are about
      structure (which hit is picked, which rows are written, what is
      raised).
    - [math.pi] is the rational number that the binary64 constant denotes.
    - Python [str] is [string], read as a sequence of code points below
      256.
    - Where rounding decides, in the degrees that the camera writes, the
      methods are embedded a second time in [Binary64], on the kernel's
      binary64 numbers.
    - A raised exception is the [Raise] branch of [result].
    - [print] appends a line to an explicit output log.
    - Objects that live in modules outside these files (the robot, its
      [cast_ray], the colour table, the camera watcher) are parameters. *)

From Stdlib Require Import ZArith QArith Qround Qabs Qminmax.
From Stdlib Require Import String Ascii List Bool Lia Lqa Sorted.
From Stdlib Require PrimFloat.
Import ListNotations.

Open Scope Z_scope.

(* ================================================================== *)
(** ** Python values shared by the three files *)

Module Py.

Inductive exn : Type :=
| ValueError
| AttributeError
| IndexError
| ZeroDivisionError
| TypeError.

Inductive result (A : Type) : Type :=
| Ok (a : A)
| Raise (e : exn).
Arguments Ok {A} a.
Arguments Raise {A} e.

Definition bind {A B : Type} (m : result A) (k : A -> result B) : result B :=
  match m with
  | Ok a => k a
  | Raise e => Raise e
  end.

Notation "x <- m ;; k" := (bind m (fun x => k))
  (at level 61, m at next level, right associativity).
Notation "' p <- m ;; k" := (bind m (fun x => match x with p => k end))
  (at level 61, p pattern, m at next level, right associativity).

(** [int(x)] on a number: truncation towards zero. *)
Definition int_of (x : Q) : Z := Z.quot (Qnum x) (Zpos (Qden x)).

(** [round(x)] with one argument: nearest integer, ties to the even one. *)
Definition round (x : Q) : Z :=
  let f := Qfloor x in
  let r := (x - inject_Z f)%Q in
  match (r ?= 1 # 2)%Q with
  | Lt => f
  | Gt => f + 1
  | Eq => if Z.even f then f else f + 1
  end.

(** [x / y] on floats: true division, raising on a zero divisor. *)
Definition div (x y : Q) : result Q :=
  if Qeq_bool y 0 then Raise ZeroDivisionError else Ok (x / y)%Q.

(** Python's [<] and [>] on numbers. *)
Definition ltb (x y : Q) : bool := negb (Qle_bool y x).
Definition gtb (x y : Q) : bool := ltb y x.

(** Python's two-argument [min] and [max]: the first argument is kept
    unless the second is strictly smaller (resp. larger). *)
Definition min (a b : Q) : Q := if ltb b a then b else a.
Definition max (a b : Q) : Q := if gtb b a then b else a.

(** Floats extended with the two infinities. *)
Inductive ext : Type :=
| NegInf
| Fin (q : Q)
| PosInf.

Definition ext_ltb (a b : ext) : bool :=
  match a, b with
  | NegInf, NegInf => false
  | NegInf, _ => true
  | Fin _, NegInf => false
  | Fin x, Fin y => ltb x y
  | Fin _, PosInf => true
  | PosInf, _ => false
  end.

Definition ext_min (a b : ext) : ext := if ext_ltb b a then b else a.
Definition ext_max (a b : ext) : ext := if ext_ltb a b then b else a.

(** [range(n)] as a list of integers; empty when [n <= 0]. *)
Definition range (n : Z) : list Z := map Z.of_nat (seq 0 (Z.to_nat n)).

(** [s[a:b]] for [0 <= a <= b]: slicing clamps at the end of the string. *)
Definition slice (a b : nat) (s : string) : string := substring a (b - a) s.

(** [math.pi], the binary64 constant 0x1.921fb54442d18p+1. *)
Definition math_pi : Q := 884279719003555 # 281474976710656.

End Py.

Import Py.

(* ================================================================== *)
(** ** utils.py *)

Module Utils.

(** One upper-case hexadecimal digit, for [0 <= d < 16]. *)
Definition hex_digit (d : Z) : ascii :=
  if d <? 10 then ascii_of_nat (Z.to_nat (48 + d))
  else ascii_of_nat (Z.to_nat (55 + d)).

Fixpoint hex_digits (fuel : nat) (n : Z) (acc : string) : string :=
  match fuel with
  | O => acc
  | S fuel' =>
      let acc' := String (hex_digit (n mod 16)) acc in
      if n / 16 =? 0 then acc' else hex_digits fuel' (n / 16) acc'
  end.

(** Upper-case hexadecimal numeral of [n >= 0], without prefix. *)
Definition hex_upper (n : Z) : string :=
  hex_digits (S (Z.to_nat (Z.log2 n))) n EmptyString.

Fixpoint zeros (k : nat) : string :=
  match k with
  | O => EmptyString
  | S k' => String "0" (zeros k')
  end.

(** ["%02X" % n]: at least two characters, padded with zeros on the left;
    a negative number carries its sign before the padding. *)
Definition format_02X (n : Z) : string :=
  if n <? 0 then
    let body := hex_upper (- n) in
    String "-" (zeros (1 - String.length body)) ++ body
  else
    let body := hex_upper n in
    zeros (2 - String.length body) ++ body.

(** Value of one hexadecimal digit, either case. *)
Definition hex_value (c : ascii) : option Z :=
  let n := Z.of_nat (nat_of_ascii c) in
  if (48 <=? n) && (n <=? 57) then Some (n - 48)
  else if (65 <=? n) && (n <=? 70) then Some (n - 55)
  else if (97 <=? n) && (n <=? 102) then Some (n - 87)
  else None.

(** The blanks that [int] strips at both ends of a string, among the
    code points below 256: tab to carriage return, the space, NEL and the
    no-break space. *)
Definition is_space (c : ascii) : bool :=
  let n := nat_of_ascii c in
  ((9 <=? n) && (n <=? 13) || (n =? 32) || (n =? 133) || (n =? 160))%nat.

(** The 256 code points a character can be. *)
Definition all_ascii : list ascii := map ascii_of_nat (seq 0 256).

Fixpoint lstrip (s : string) : string :=
  match s with
  | EmptyString => EmptyString
  | String c s' => if is_space c then lstrip s' else s
  end.

Fixpoint all_space (s : string) : bool :=
  match s with
  | EmptyString => true
  | String c s' => is_space c && all_space s'
  end.

(** The digits of the numeral: single underscores may stand between
    them, and only blanks may follow the last one. *)
Fixpoint int16_digits (s : string) (acc : Z) (after_underscore : bool)
  : result Z :=
  match s with
  | EmptyString => if after_underscore then Raise ValueError else Ok acc
  | String c s' =>
      match hex_value c with
      | Some d => int16_digits s' (16 * acc + d) false
      | None =>
          if Ascii.eqb c "_" then
            if after_underscore then Raise ValueError
            else int16_digits s' acc true
          else if after_underscore then Raise ValueError
          else if all_space s then Ok acc
          else Raise ValueError
      end
  end.

(** [int(s, 16)], for a string of code points below 256: blanks at both
    ends, then an optional sign, an optional prefix [0x] or [0X] (which
    one underscore may follow), and hexadecimal digits of either case
    separated by single underscores at most.  Anything else, the empty
    string included, raises [ValueError]. *)
Definition int16 (s : string) : result Z :=
  let s := lstrip s in
  let '(negative, s) :=
    match s with
    | EmptyString => (false, s)
    | String c s' =>
        if Ascii.eqb c "+" then (false, s')
        else if Ascii.eqb c "-" then (true, s')
        else (false, s)
    end in
  let s :=
    match s with
    | String c (String x s') =>
        if Ascii.eqb c "0" && (Ascii.eqb x "x" || Ascii.eqb x "X") then
          match s' with
          | EmptyString => s'
          | String u s'' => if Ascii.eqb u "_" then s'' else s'
          end
        else s
    | _ => s
    end in
  match s with
  | EmptyString => Raise ValueError
  | String c _ =>
      match hex_value c with
      | Some _ =>
          n <- int16_digits s 0 false ;;
          Ok (if negative then - n else n)
      | None => Raise ValueError
      end
  end.

Record Color : Type := mkColor {
  name : option string;
  red : Q;
  green : Q;
  blue : Q;
  alpha : Q
}.

(** [Color.hex_to_rgba] *)
Definition hex_to_rgba (hex_string : string) : result (Z * Z * Z * Z) :=
  let r_hex := slice 1 3 hex_string in
  let g_hex := slice 3 5 hex_string in
  let b_hex := slice 5 7 hex_string in
  let a_hex :=
    if (7 <? String.length hex_string)%nat then slice 7 9 hex_string
    else "FF"%string in
  r <- int16 r_hex ;;
  g <- int16 g_hex ;;
  b <- int16 b_hex ;;
  a <- int16 a_hex ;;
  Ok (r, g, b, a).

(** The first positional argument of [Color(...)]: a string, a list or
    tuple of numbers, or a number. *)
Inductive color_arg : Type :=
| OfStr (s : string)
| OfSeq (l : list Q)
| OfNum (n : Q).

Definition startswith_hash (s : string) : bool :=
  match s with
  | String c _ => Ascii.eqb c "#"
  | EmptyString => false
  end.

Section ColorTable.

(** [COLORS] of [color_data.py], a dictionary from colour names to
    hexcodes; [COLORS_get n] is [COLORS.get(n)], absent names are [None]. *)
Variable COLORS_get : string -> option string.

(** The tail of [Color.__init__], once [red] is a number: the defaults of
    the three optional channels. *)
Definition fill_channels (nm : option string) (red : Q)
    (green blue alpha : option Q) : Color :=
  mkColor nm red
    (match green with Some g => g | None => red end)
    (match blue with Some b => b | None => red end)
    (match alpha with Some a => a | None => 255%Q end).

(** [Color.__init__(red, green=None, blue=None, alpha=None)] *)
Definition Color_init (red : color_arg) (green blue alpha : option Q)
  : result Color :=
  match red with
  | OfStr s =>
      if startswith_hash s then
        '(r, g, b, a) <- hex_to_rgba s ;;
        Ok (fill_channels None (inject_Z r) (Some (inject_Z g))
              (Some (inject_Z b)) (Some (inject_Z a)))
      else
        let hex_string :=
          match COLORS_get s with
          | Some h => h
          | None => "#00000000"%string
          end in
        '(r, g, b, a) <- hex_to_rgba hex_string ;;
        Ok (fill_channels (Some s) (inject_Z r) (Some (inject_Z g))
              (Some (inject_Z b)) (Some (inject_Z a)))
  | OfSeq l =>
      if (List.length l =? 3)%nat then
        match l with
        | [r; g; b] => Ok (fill_channels None r (Some g) (Some b) (Some 255%Q))
        | _ => Raise ValueError
        end
      else
        match l with
        | [r; g; b; a] => Ok (fill_channels None r (Some g) (Some b) (Some a))
        | _ => Raise ValueError
        end
  | OfNum n => Ok (fill_channels None n green blue alpha)
  end.

End ColorTable.

(** [Color.to_tuple] *)
Definition to_tuple (c : Color) : Z * Z * Z * Z :=
  (int_of (red c), int_of (green c), int_of (blue c), int_of (alpha c)).

(** [Color.to_hexcode] *)
Definition to_hexcode (c : Color) : string :=
  let '(r, g, b, a) := to_tuple c in
  String "#" (format_02X r ++ format_02X g ++ format_02X b ++ format_02X a).

(** [Color.__str__] *)
Definition Color_str (c : Color) : string :=
  match name c with
  | Some n => n
  | None => to_hexcode c
  end.

(** Colours built from numbers, as [Color(r, g, b)] and [Color(n)] do;
    these calls cannot raise. *)
Definition Color3 (r g b : Q) : Color :=
  fill_channels None r (Some g) (Some b) None.
Definition Color1 (n : Q) : Color := fill_channels None n None None None.

(** [Point] and [Line] *)
Record Point : Type := mkPoint { px : Q; py : Q }.
Record Line : Type := mkLine { p1 : Point; p2 : Point }.

End Utils.

Import Utils.

(* ================================================================== *)
(** ** devices/cameras.py *)

Module Cameras.

(** *** The objects the camera reads *)

(** The world as the camera reads it: [robot.world.time], [.width],
    [.height], [.scale], [.ground_color], [.ground_image] (with its pixel
    table [ground_image_pixels], indexed by [(x, y)]) and [.watchers]
    (each watcher stands for the widget it carries). *)
Record World : Type := mkWorld {
  w_time : Q;
  w_width : Q;
  w_height : Q;
  w_scale : Q;
  ground_color : Color;
  ground_image : option (Z -> Z -> result (Z * Z * Z * Z));
  watchers : list nat
}.

(** The robot as the camera reads it. *)
Record Robot : Type := mkRobot {
  r_name : string;
  x : Q;
  y : Q;
  direction : Q;
  world : option World;
  has_image : bool
}.

(** One intersection of a ray: [hit.robot] is [None] for a wall. *)
Record Hit : Type := mkHit {
  hit_robot : option Robot;
  hit_height : Q;
  distance : Q;
  hit_color : Color
}.

(** Truth value of a hit object in [if hit:]. *)
Definition truthy (h : Hit) : bool := true.

(** One entry of [Camera.obstacles]: the bounding box collected for a
    robot seen by the camera. *)
Record Obstacle : Type := mkObstacle {
  o_robot : Robot;
  max_x : ext;
  max_y : ext;
  min_x : ext;
  min_y : ext
}.

(** A PIL image in mode RGBA and its pixel access object. *)
Record Picture : Type := mkPicture {
  pic_width : Z;
  pic_height : Z;
  pixel : Z -> Z -> Z * Z * Z * Z
}.

Record Camera : Type := mkCamera {
  robot : option Robot;
  type : string;
  time : Q;
  cameraShape : Z * Z;
  max_range : Z;
  colorsFadeWithDistance : Q;
  sizeFadeWithDistance : Q;
  reflectGround : bool;
  reflectSky : bool;
  angle : Q;
  hits : list (list Hit);
  obstacles : list (string * Obstacle)
}.

(** The configuration dictionary: one optional entry per recognised key. *)
Record Config : Type := mkConfig {
  k_class : option string;
  k_width : option Z;
  k_height : option Z;
  k_colorsFadeWithDistance : option Q;
  k_sizeFadeWithDistance : option Q;
  k_reflectGround : option bool;
  k_reflectSky : option bool;
  k_angle : option Q;
  k_max_range : option Z
}.

(** What the camera needs from modules outside this file. *)
Class Collaborators : Type := {
  (** [robot.cast_ray(x, y, angle, max_distance)] *)
  cast_ray : Robot -> Q -> Q -> Q -> Q -> list Hit;
  (** [robot.rotate_around(x, y, length, angle)] *)
  rotate_around : Robot -> Q -> Q -> Q -> Q -> Q * Q;
  (** whether [from PIL import Image] succeeds *)
  PIL_available : bool;
  (** the body of the loop of [show_obstacles] for a robot that has an
      image: the sprite pasted into the picture, and the lines printed *)
  paste_sprite : Robot -> Obstacle -> Picture -> Picture * list string;
  (** the widget of [CameraWatcher(camera)] *)
  CameraWatcher : Camera -> nat
}.

(** *** Field updates *)

Definition set_hits (c : Camera) (h : list (list Hit)) : Camera :=
  mkCamera (robot c) (type c) (time c) (cameraShape c) (max_range c)
    (colorsFadeWithDistance c) (sizeFadeWithDistance c) (reflectGround c)
    (reflectSky c) (angle c) h (obstacles c).

Definition set_time (c : Camera) (t : Q) : Camera :=
  mkCamera (robot c) (type c) t (cameraShape c) (max_range c)
    (colorsFadeWithDistance c) (sizeFadeWithDistance c) (reflectGround c)
    (reflectSky c) (angle c) (hits c) (obstacles c).

Definition set_cameraShape (c : Camera) (s : Z * Z) : Camera :=
  mkCamera (robot c) (type c) (time c) s (max_range c)
    (colorsFadeWithDistance c) (sizeFadeWithDistance c) (reflectGround c)
    (reflectSky c) (angle c) (hits c) (obstacles c).

Definition set_max_range (c : Camera) (m : Z) : Camera :=
  mkCamera (robot c) (type c) (time c) (cameraShape c) m
    (colorsFadeWithDistance c) (sizeFadeWithDistance c) (reflectGround c)
    (reflectSky c) (angle c) (hits c) (obstacles c).

Definition set_colorsFadeWithDistance (c : Camera) (f : Q) : Camera :=
  mkCamera (robot c) (type c) (time c) (cameraShape c) (max_range c)
    f (sizeFadeWithDistance c) (reflectGround c)
    (reflectSky c) (angle c) (hits c) (obstacles c).

Definition set_sizeFadeWithDistance (c : Camera) (f : Q) : Camera :=
  mkCamera (robot c) (type c) (time c) (cameraShape c) (max_range c)
    (colorsFadeWithDistance c) f (reflectGround c)
    (reflectSky c) (angle c) (hits c) (obstacles c).

Definition set_reflectGround (c : Camera) (b : bool) : Camera :=
  mkCamera (robot c) (type c) (time c) (cameraShape c) (max_range c)
    (colorsFadeWithDistance c) (sizeFadeWithDistance c) b
    (reflectSky c) (angle c) (hits c) (obstacles c).

Definition set_reflectSky (c : Camera) (b : bool) : Camera :=
  mkCamera (robot c) (type c) (time c) (cameraShape c) (max_range c)
    (colorsFadeWithDistance c) (sizeFadeWithDistance c) (reflectGround c)
    b (angle c) (hits c) (obstacles c).

Definition set_angle (c : Camera) (a : Q) : Camera :=
  mkCamera (robot c) (type c) (time c) (cameraShape c) (max_range c)
    (colorsFadeWithDistance c) (sizeFadeWithDistance c) (reflectGround c)
    (reflectSky c) a (hits c) (obstacles c).

Definition set_obstacles (c : Camera) (o : list (string * Obstacle)) : Camera :=
  mkCamera (robot c) (type c) (time c) (cameraShape c) (max_range c)
    (colorsFadeWithDistance c) (sizeFadeWithDistance c) (reflectGround c)
    (reflectSky c) (angle c) (hits c) o.

(** *** Construction and configuration *)

(** [Camera.reset] *)
Definition reset (c : Camera) : Camera :=
  set_hits c (map (fun _ => []) (range (fst (cameraShape c)))).

(** [Camera.set_fov]: given in degrees, saved in radians. *)
Definition set_fov (c : Camera) (degrees : Q) : Camera :=
  reset (set_angle c (degrees * math_pi / 180)%Q).

(** [Camera.set_size] *)
Definition set_size (c : Camera) (width height : Z) : Camera :=
  reset (set_cameraShape c (width, height)).

(** [Camera.initialize], on the object that so far only has [robot].
    The attribute [obstacles] does not exist yet: [take_picture] assigns
    it before anything reads it, and until then the field holds the empty
    table. *)
Definition initialize (r : option Robot) : Camera :=
  reset
    (set_fov
       (mkCamera r "camera" 0 (256, 128) 1000 (1 # 2) 1 true false 0 [] [])
       60).

Definition when {A : Type} (o : option A) (f : Camera -> A -> Camera)
    (c : Camera) : Camera :=
  match o with
  | Some v => f c v
  | None => c
  end.

(** [Camera.from_json] *)
Definition from_json (c : Camera) (config : Config) : Camera :=
  let c := when (k_width config)
             (fun c w => set_cameraShape c (w, snd (cameraShape c))) c in
  let c := when (k_height config)
             (fun c h => set_cameraShape c (fst (cameraShape c), h)) c in
  let c := when (k_colorsFadeWithDistance config)
             set_colorsFadeWithDistance c in
  let c := when (k_sizeFadeWithDistance config) set_sizeFadeWithDistance c in
  let c := when (k_reflectGround config) set_reflectGround c in
  let c := when (k_reflectSky config) set_reflectSky c in
  let c := when (k_angle config) set_fov c in
  let c := when (k_max_range config) set_max_range c in
  c.

(** [Camera.to_json] is embedded in [Binary64] below: the degrees it
    writes depend on how the conversions round. *)

(** [Camera.__init__] with its keyword arguments. *)
Definition Camera_init (width height : Z) (angle : Q)
    (colorsFadeWithDistance sizeFadeWithDistance : Q)
    (reflectGround reflectSky : bool) (max_range : Z) : Camera :=
  let config :=
    mkConfig None (Some width) (Some height) (Some colorsFadeWithDistance)
      (Some sizeFadeWithDistance) (Some reflectGround) (Some reflectSky)
      (Some angle) (Some max_range) in
  from_json (initialize None) config.

(** [Camera()] with every default. *)
Definition Camera_default : Camera :=
  Camera_init 256 128 60 (1 # 2) 1 true false 1000.

(** Attaching the camera to a robot ([camera.robot = robot]). *)
Definition attach (c : Camera) (r : Robot) : Camera :=
  mkCamera (Some r) (type c) (time c) (cameraShape c) (max_range c)
    (colorsFadeWithDistance c) (sizeFadeWithDistance c) (reflectGround c)
    (reflectSky c) (angle c) (hits c) (obstacles c).

(** *** Attribute access that can fail *)

(** [self.robot.<attr>]: [AttributeError] when [self.robot] is [None]. *)
Definition the_robot (c : Camera) : result Robot :=
  match robot c with
  | Some r => Ok r
  | None => Raise AttributeError
  end.

(** [self.robot.world.<attr>] *)
Definition the_world (c : Camera) : result World :=
  r <- the_robot c ;;
  match world r with
  | Some w => Ok w
  | None => Raise AttributeError
  end.

(** [l[i]] for reading, with Python's negative indices. *)
Definition getitem {A : Type} (l : list A) (i : Z) : result A :=
  let n := Z.of_nat (List.length l) in
  let k := if i <? 0 then i + n else i in
  if (0 <=? k) && (k <? n) then
    match nth_error l (Z.to_nat k) with
    | Some a => Ok a
    | None => Raise IndexError
    end
  else Raise IndexError.

Fixpoint replace_nth {A : Type} (l : list A) (n : nat) (v : A) : list A :=
  match l, n with
  | [], _ => []
  | _ :: t, O => v :: t
  | a :: t, S n' => a :: replace_nth t n' v
  end.

(** [l[i] = v] *)
Definition setitem {A : Type} (l : list A) (i : Z) (v : A) : result (list A) :=
  let n := Z.of_nat (List.length l) in
  let k := if i <? 0 then i + n else i in
  if (0 <=? k) && (k <? n) then Ok (replace_nth l (Z.to_nat k) v)
  else Raise IndexError.

(** A [for] loop whose body may raise. *)
Fixpoint for_each {A S : Type} (l : list A) (body : A -> S -> result S)
    (s : S) : result S :=
  match l with
  | [] => Ok s
  | a :: t => s' <- body a s ;; for_each t body s'
  end.

Section WithCollaborators.

Context {collab : Collaborators}.

(** *** The ray fan *)

(** The angle of column [i], relative to the robot's heading. *)
Definition column_angle (c : Camera) (i : Z) : result Q :=
  q <- div (inject_Z i) (inject_Z (fst (cameraShape c))) ;;
  Ok (q * angle c - angle c / 2)%Q.

(** [Camera._update] *)
Definition _update (c : Camera) : result Camera :=
  w <- the_world c ;;
  let c := set_time c (w_time w) in
  for_each (range (fst (cameraShape c)))
    (fun i c =>
       angle <- column_angle c i ;;
       r <- the_robot c ;;
       h <- setitem (hits c) i
              (cast_ray r (x r) (y r)
                 (math_pi / 2 - direction r - angle)%Q 1000) ;;
       Ok (set_hits c h))
    c.

(** [Camera.find_closest_wall] *)
Fixpoint first_wall (l : list Hit) : ext :=
  match l with
  | [] => PosInf
  | hit :: rest =>
      if ltb (hit_height hit) 1 then first_wall rest
      else Fin (distance hit)
  end.

Definition find_closest_wall (hits : list Hit) : ext :=
  first_wall (rev hits).

Definition watch_error : string :=
  "ERROR: can't watch until added to robot, and robot is in world".

(** [Camera.watch] returns the new camera (its world gains a watcher), the
    returned widget and the lines printed. *)
Definition watch (c : Camera) : Camera * option nat * list string :=
  match robot c with
  | None =>
      (c, None, [watch_error])
  | Some r =>
      match world r with
      | None =>
          (c, None, [watch_error])
      | Some w =>
          let widget := CameraWatcher c in
          let w' := mkWorld (w_time w) (w_width w) (w_height w) (w_scale w)
                      (ground_color w) (ground_image w)
                      (watchers w ++ [widget]) in
          let r' := mkRobot (r_name r) (x r) (y r) (direction r) (Some w')
                      (has_image r) in
          (attach c r', Some widget, [])
      end
  end.

(** *** The picture *)

(** [Image.new("RGBA", (w, h))]: every pixel starts as (0, 0, 0, 0);
    Pillow refuses a negative size. *)
Definition Image_new (w h : Z) : result Picture :=
  if (w <? 0) || (h <? 0) then Raise ValueError
  else Ok (mkPicture w h (fun _ _ => (0, 0, 0, 0))).

(** Pillow stores each channel of an RGBA pixel in eight bits. *)
Definition clip8 (v : Z) : Z :=
  if v <=? 0 then 0 else if v <? 256 then v else 255.

(** [pic_pixels[i, j] = t]: Pillow counts a negative coordinate from the
    far edge and raises [IndexError] outside the image. *)
Definition putpixel (p : Picture) (i j : Z) (t : Z * Z * Z * Z)
  : result Picture :=
  let i' := if i <? 0 then pic_width p + i else i in
  let j' := if j <? 0 then pic_height p + j else j in
  if (i' <? 0) || (pic_width p <=? i') || (j' <? 0) || (pic_height p <=? j')
  then Raise IndexError
  else
    let '(r, g, b, a) := t in
    let v := (clip8 r, clip8 g, clip8 b, clip8 a) in
    Ok (mkPicture (pic_width p) (pic_height p)
          (fun a b => if (a =? i') && (b =? j') then v else pixel p a b)).

Fixpoint ray_points (n : nat) (x y dx dy : Q) : list (Q * Q) :=
  match n with
  | O => []
  | S n' => (x, y) :: ray_points n' (x + dx)%Q (y + dy)%Q dx dy
  end.

(** [Camera._get_visible_area], as the list that [take_picture] makes of it. *)
Definition _get_visible_area (c : Camera)
  : result (list ((Q * Q) * (Q * Q))) :=
  r <- the_robot c ;;
  let side (a : Q) :=
    let '(dx, dy) := rotate_around r 0 0 1 (direction r + a)%Q in
    ray_points (Z.to_nat (max_range c)) (x r) (y r) dx dy in
  Ok (combine (side (angle c / 2)%Q) (side (- angle c / 2)%Q)).

(** [sorted([a, b])] *)
Definition sorted2 (a b : Q) : Q * Q := if ltb b a then (b, a) else (a, b).

(** [Camera.get_ground_color] *)
Definition get_ground_color (c : Camera)
    (area : option (list ((Q * Q) * (Q * Q)))) (i j : Z) : result Color :=
  w <- the_world c ;;
  match ground_image w, area with
  | Some ground_image_pixels, Some area =>
      let W := inject_Z (fst (cameraShape c)) in
      let H := inject_Z (snd (cameraShape c)) in
      q <- div (H - inject_Z j)%Q H ;;
      let dist := round (q / 2 * inject_Z (Z.of_nat (List.length area)))%Q in
      '(p1, p2) <- getitem area dist ;;
      let '(minx, maxx) := sorted2 (fst p1) (fst p2) in
      let '(miny, maxy) := sorted2 (snd p1) (snd p2) in
      qx <- div ((maxx - minx) * inject_Z i)%Q W ;;
      let x := round ((qx + minx) * w_scale w)%Q in
      qy <- div ((maxy - miny) * inject_Z i)%Q W ;;
      let y := round ((qy + miny) * w_scale w)%Q in
      if Qle_bool 0 (inject_Z x)
         && ltb (inject_Z x) ((w_width w - 1) * w_scale w)%Q
         && (Qle_bool 0 (inject_Z y)
             && ltb (inject_Z y) ((w_height w - 1) * w_scale w)%Q)
      then
        '(r, g, b, a) <- ground_image_pixels x y ;;
        Ok (fill_channels None (inject_Z r) (Some (inject_Z g))
              (Some (inject_Z b)) (Some (inject_Z a)))
      else Ok (ground_color w)
  | _, _ => Ok (ground_color w)
  end.

(** [max(min(1.0 - distance / size * factor, 1.0), 0.0)], the expression
    of [s] and [sc] in both passes of [take_picture]. *)
Definition fade (distance size factor : Q) : result Q :=
  q <- div distance size ;;
  Ok (max (min (1 - q * factor)%Q 1) 0).

(** [max(min(1.0 - distance / size, 1.0), 0.0)] *)
Definition distance_ratio_of (distance size : Q) : result Q :=
  q <- div distance size ;;
  Ok (max (min (1 - q)%Q 1) 0).

(** The channels [r, g, b] chosen by the picture type. *)
Definition shade (type : string) (hit : Hit) (distance_ratio sc : Q)
  : Q * Q * Q :=
  if String.eqb type "color" then
    (red (hit_color hit) * sc, green (hit_color hit) * sc,
     blue (hit_color hit) * sc)%Q
  else if String.eqb type "depth" then
    (255 * distance_ratio, 255 * distance_ratio, 255 * distance_ratio)%Q
  else
    let avg := ((red (hit_color hit) + green (hit_color hit)
                 + blue (hit_color hit)) / 3)%Q in
    (avg * sc, avg * sc, avg * sc)%Q.

(** The colour of a sky pixel (resp. of a ground pixel in the types other
    than "color"), [dist] being the pixel's relative distance from the
    middle row. *)
Definition backdrop (type : string) (reflect : bool) (dist : Q) : Color :=
  if String.eqb type "depth" then
    if reflect then Color1 (255 * dist)%Q else Color1 0
  else if String.eqb type "color" then Color3 0 0 128
  else Color1 (128 / 3)%Q.

(** One iteration of the first loop of [take_picture]: column [i] of the
    walls, the sky and the ground. *)
Definition wall_column (c : Camera) (type : string)
    (area : option (list ((Q * Q) * (Q * Q)))) (size : Q)
    (i : Z) (pic : Picture) : result Picture :=
  let H := inject_Z (snd (cameraShape c)) in
  column <- getitem (hits c) i ;;
  let hits := filter (fun hit => Qeq_bool (hit_height hit) 1) column in
  if (List.length hits =? 0)%nat then Ok pic
  else
    hit <- getitem hits (-1) ;;
    '(hcolor, high) <-
      (if truthy hit then
         distance_ratio <- distance_ratio_of (distance hit) size ;;
         s <- fade (distance hit) size (sizeFadeWithDistance c) ;;
         sc <- fade (distance hit) size (colorsFadeWithDistance c) ;;
         let '(r, g, b) := shade type hit distance_ratio sc in
         Ok (Some (Color3 r g b), ((1 - s) * H)%Q)
       else Ok (None, 0%Q)) ;;
    let horizon := (H / 2)%Q in
    for_each (range (snd (cameraShape c)))
      (fun j pic =>
         q <- div (Qabs (inject_Z j - horizon)) horizon ;;
         let dist := max (min q 1) 0 in
         if ltb (inject_Z j) (high / 2)%Q then
           putpixel pic i j (to_tuple (backdrop type (reflectSky c) dist))
         else if ltb (inject_Z j) (H - high / 2)%Q then
           match hcolor with
           | Some hcolor => putpixel pic i j (to_tuple hcolor)
           | None => Ok pic
           end
         else
           color <-
             (if String.eqb type "depth" then
                Ok (backdrop type (reflectGround c) dist)
              else if String.eqb type "color" then
                get_ground_color c area i j
              else Ok (backdrop type (reflectGround c) dist)) ;;
           putpixel pic i j (to_tuple color))
      pic.

Fixpoint has_key (k : string) (d : list (string * Obstacle)) : bool :=
  match d with
  | [] => false
  | (k', _) :: rest => String.eqb k k' || has_key k rest
  end.

Fixpoint update_key (k : string) (f : Obstacle -> Obstacle)
    (d : list (string * Obstacle)) : list (string * Obstacle) :=
  match d with
  | [] => []
  | (k', v) :: rest =>
      if String.eqb k k' then (k', f v) :: rest
      else (k', v) :: update_key k f rest
  end.

(** [Camera.record_obstacle], on the dictionary [self.obstacles]. *)
Definition record_obstacle (obstacles : list (string * Obstacle))
    (robot : option Robot) (x y1 y2 : Z)
  : result (list (string * Obstacle)) :=
  match robot with
  | None => Raise AttributeError
  | Some robot =>
      let obstacles :=
        if has_key (r_name robot) obstacles then obstacles
        else
          obstacles
          ++ [(r_name robot,
               mkObstacle robot NegInf NegInf PosInf PosInf)] in
      let fx := Fin (inject_Z x) in
      let fy1 := Fin (inject_Z y1) in
      let fy2 := Fin (inject_Z y2) in
      Ok (update_key (r_name robot)
            (fun o =>
               mkObstacle (o_robot o)
                 (ext_max (max_x o) fx)
                 (ext_max (ext_max (max_y o) fy1) fy2)
                 (ext_min (min_x o) fx)
                 (ext_min (ext_min (min_y o) fy1) fy2))
            obstacles)
  end.

(** The inner loop of the second loop of [take_picture]: the obstacle hits
    of column [i], in list order, left at the first hit that lies behind
    the closest wall ([break]). *)
Fixpoint obstacle_hits (c : Camera) (type : string) (size : Q) (i : Z)
    (closest_wall_dist : ext) (hits : list Hit)
    (st : list (string * Obstacle) * Picture)
  : result (list (string * Obstacle) * Picture) :=
  match hits with
  | [] => Ok st
  | hit :: rest =>
      if ext_ltb closest_wall_dist (Fin (distance hit)) then Ok st
      else
        let H := snd (cameraShape c) in
        distance_ratio <- distance_ratio_of (distance hit) size ;;
        s <- fade (distance hit) size (sizeFadeWithDistance c) ;;
        sc <- fade (distance hit) size (colorsFadeWithDistance c) ;;
        let distance_to := (inject_Z H / 2 * (1 - sc))%Q in
        let height := round (hit_height hit * inject_Z H / 2 * s)%Q in
        let '(r, g, b) := shade type hit distance_ratio sc in
        let hcolor := Color3 r g b in
        obstacles <-
          record_obstacle (fst st) (hit_robot hit) i
            (H - 1 - round distance_to)
            (H - height - 1 - 1 - round distance_to) ;;
        robot <- match hit_robot hit with
                 | Some r => Ok r
                 | None => Raise AttributeError
                 end ;;
        pic <-
          (if negb (has_image robot) then
             for_each (range height)
               (fun j pic =>
                  putpixel pic i (H - j - 1 - round distance_to)
                    (to_tuple hcolor))
               (snd st)
           else Ok (snd st)) ;;
        obstacle_hits c type size i closest_wall_dist rest (obstacles, pic)
  end.

(** One iteration of the second loop of [take_picture]. *)
Definition obstacle_column (c : Camera) (type : string) (size : Q) (i : Z)
    (st : list (string * Obstacle) * Picture)
  : result (list (string * Obstacle) * Picture) :=
  column <- getitem (hits c) i ;;
  let closest_wall_dist := find_closest_wall column in
  let hits := filter (fun hit => ltb (hit_height hit) 1) column in
  obstacle_hits c type size i closest_wall_dist hits st.

(** [Camera.show_obstacles]: only a robot that has an image is pasted,
    and only then is the viewer ([self.robot]) read. *)
Fixpoint show_obstacles_loop (c : Camera)
    (values : list (string * Obstacle)) (image : Picture)
  : result (Picture * list string) :=
  match values with
  | [] => Ok (image, [])
  | (_, data) :: rest =>
      if has_image (o_robot data) then
        viewer <- the_robot c ;;
        let '(image, out) := paste_sprite viewer data image in
        '(image, out') <- show_obstacles_loop c rest image ;;
        Ok (image, out ++ out')
      else show_obstacles_loop c rest image
  end.

Definition show_obstacles (c : Camera) (image : Picture)
  : result (Picture * list string) :=
  show_obstacles_loop c (obstacles c) image.

(** The first loop of [take_picture]. *)
Definition wall_pass (c : Camera) (type : string)
    (area : option (list ((Q * Q) * (Q * Q)))) (size : Q) (pic : Picture)
  : result Picture :=
  for_each (range (fst (cameraShape c))) (wall_column c type area size) pic.

(** The second loop of [take_picture]. *)
Definition obstacle_pass (c : Camera) (type : string) (size : Q)
    (pic : Picture) : result (list (string * Obstacle) * Picture) :=
  for_each (range (fst (cameraShape c))) (obstacle_column c type size)
    ([], pic).

Definition pillow_missing : string :=
  "Pillow (PIL) module not available; take_picture() unavailable".

(** [Camera.take_picture]: the camera after the call, the value returned
    ([None] for a bare [return]) and the lines printed. *)
Definition take_picture (c : Camera) (type : string)
  : result (Camera * option Picture * list string) :=
  if negb PIL_available then
    Ok (c, None, [pillow_missing])
  else
    c <- _update c ;;
    w <- the_world c ;;
    area <- match ground_image w with
            | Some _ => a <- _get_visible_area c ;; Ok (Some a)
            | None => Ok None
            end ;;
    pic <- Image_new (fst (cameraShape c)) (snd (cameraShape c)) ;;
    let size := max (w_width w) (w_height w) in
    pic <- wall_pass c type area size pic ;;
    '(obstacles, pic) <- obstacle_pass c type size pic ;;
    let c := set_obstacles c obstacles in
    '(pic, out) <- show_obstacles c pic ;;
    Ok (c, Some pic, out).

End WithCollaborators.

End Cameras.

(* ================================================================== *)
(** ** world.py: the robot registry *)

Module Worlds.

(** A robot object, as [add_robot] reads and writes it.  Objects are
    referred to by their identity, a number. *)
Record Robot : Type := mkRobot {
  r_name : string;
  x : Q;
  y : Q;
  world : option nat;
  color : Color;
  bounding_lines : list Line
}.

(** [Wall(color, robot, *lines)] *)
Record Wall : Type := mkWall {
  wall_color : Color;
  wall_robot : option nat;
  lines : list Line
}.

Record World : Type := mkWorld {
  world_id : nat;
  width : Q;
  height : Q;
  _robots : list nat;
  walls : list Wall
}.

(** The program state around one world: the robot objects by identity, the
    world, the lines printed so far and the number of values drawn from
    [random.random()]. *)
Record State : Type := mkState {
  objects : nat -> Robot;
  self : World;
  stdout : list string;
  drawn : nat
}.

Class Environment : Type := {
  (** the [n]-th value returned by [random.random()] *)
  random : nat -> Q;
  (** [World.update]: the robots' own [update] and the drawing *)
  update : State -> State
}.

Definition set_object (st : State) (id : nat) (r : Robot) : State :=
  mkState (fun k => if Nat.eqb k id then r else objects st k)
    (self st) (stdout st) (drawn st).

Definition set_self (st : State) (w : World) : State :=
  mkState (objects st) w (stdout st) (drawn st).

Definition print (st : State) (line : string) : State :=
  mkState (objects st) (self st) (stdout st ++ [line]) (drawn st).

(** [robot in self._robots]: membership by object identity. *)
Definition contains (l : list nat) (id : nat) : bool :=
  existsb (Nat.eqb id) l.

Section WithEnvironment.

Context {env : Environment}.

(** One call of [random.random()]. *)
Definition next_random (st : State) : Q * State :=
  (random (drawn st),
   mkState (objects st) (self st) (stdout st) (S (drawn st))).

(** [World.add_robot] *)
Definition add_robot (st : State) (robot : nat) : State :=
  if negb (contains (_robots (self st)) robot) then
    let st :=
      let r := objects st robot in
      if Qeq_bool (x r) 0 then
        let '(v, st) := next_random st in
        set_object st robot
          (mkRobot (r_name r)
             (inject_Z (round (v * (width (self st) - 10))%Q))
             (y r) (world r) (color r) (bounding_lines r))
      else st in
    let st :=
      let r := objects st robot in
      if Qeq_bool (y r) 0 then
        let '(v, st) := next_random st in
        set_object st robot
          (mkRobot (r_name r) (x r)
             (inject_Z (round (v * (height (self st) - 10))%Q))
             (world r) (color r) (bounding_lines r))
      else st in
    let w := self st in
    let st :=
      set_self st
        (mkWorld (world_id w) (width w) (height w) (_robots w ++ [robot])
           (walls w)) in
    let r := objects st robot in
    let st :=
      set_object st robot
        (mkRobot (r_name r) (x r) (y r) (Some (world_id (self st)))
           (color r) (bounding_lines r)) in
    let r := objects st robot in
    let wall := mkWall (color r) (Some robot) (bounding_lines r) in
    let w := self st in
    let st :=
      set_self st
        (mkWorld (world_id w) (width w) (height w) (_robots w)
           (walls w ++ [wall])) in
    update st
  else
    print st "Can't add the same robot to a world more than once.".

End WithEnvironment.

End Worlds.

(* ================================================================== *)
(** ** Scenes used to run the definitions *)

Module Scenes.

Import Cameras.

(** A world of 100 by 50 units without a ground image. *)
Definition field : World :=
  mkWorld 0 100 50 3 (Color3 0 128 0) None [].

Definition viewer : Robot := mkRobot "viewer" 10 10 0 (Some field) false.
Definition robot_A : Robot := mkRobot "A" 20 10 0 (Some field) false.
Definition robot_B : Robot := mkRobot "B" 40 10 0 (Some field) false.

Definition grey_wall (d : Q) : Hit := mkHit None 1 d (Color3 128 128 128).
Definition hit_A : Hit := mkHit (Some robot_A) (1 # 4) 10 (Color3 255 0 0).
Definition hit_B : Hit := mkHit (Some robot_B) (1 # 4) 30 (Color3 0 0 255).

Definition scene (rays : Robot -> Q -> Q -> Q -> Q -> list Hit)
  : Collaborators :=
  {| cast_ray := rays;
     rotate_around := fun _ x y _ _ => (x, y);
     PIL_available := true;
     paste_sprite := fun _ _ p => (p, []);
     CameraWatcher := fun _ => 0%nat |}.

(** Every ray meets one wall, exactly as far away as the ray was allowed
    to travel. *)
Definition probe : Collaborators := scene (fun _ _ _ _ m => [grey_wall m]).

(** No ray meets anything. *)
Definition open_field : Collaborators := scene (fun _ _ _ _ _ => []).

(** Every ray crosses robot B at 30, a wall at 20 and robot A at 10,
    returned farthest first. *)
Definition crowded : Collaborators :=
  scene (fun _ _ _ _ _ => [hit_B; grey_wall 20; hit_A]).

(** The same three hits returned nearest first. *)
Definition crowded_nearest_first : Collaborators :=
  scene (fun _ _ _ _ _ => [hit_A; grey_wall 20; hit_B]).

(** A camera of 2 by 8 pixels with a range of 100, on the viewer. *)
Definition small_camera : Camera :=
  attach (Camera_init 2 8 60 (1 # 2) 1 true false 100) viewer.

(** The same camera with a hit buffer in which column 0 only sees
    robot A and column 1 sees nothing. *)
Definition camera_facing_A : Camera :=
  set_hits small_camera [[hit_A]; []].

(** A world of 500 by 250 units with no robot yet; random draws are all
    one half and [World.update] has nothing to do. *)
Definition quiet : Worlds.Environment :=
  {| Worlds.random := fun _ => 1 # 2;
     Worlds.update := fun st => st |}.

Definition rover : Worlds.Robot :=
  Worlds.mkRobot "rover" 0 0 None (Color3 255 0 0)
    [mkLine (mkPoint 0 0) (mkPoint 1 0); mkLine (mkPoint 1 0) (mkPoint 0 0)].

Definition empty_world : Worlds.State :=
  Worlds.mkState (fun _ => rover) (Worlds.mkWorld 0 500 250 [] []) [] 0.

End Scenes.

(* ================================================================== *)
(** ** devices/cameras.py: the point cloud and the obstacle table *)

Module CameraMore.

Import Cameras.

(** [pixels[x, y]] for reading, with Pillow's treatment of negative and
    outside coordinates. *)
Definition getpixel (p : Picture) (i j : Z) : result (Z * Z * Z * Z) :=
  let i' := if i <? 0 then pic_width p + i else i in
  let j' := if j <? 0 then pic_height p + j else j in
  if (i' <? 0) || (pic_width p <=? i') || (j' <? 0) || (pic_height p <=? j')
  then Raise IndexError
  else Ok (pixel p i' j').

(** What Pillow keeps of a tuple written into an RGBA pixel. *)
Definition clipped (t : Z * Z * Z * Z) : Z * Z * Z * Z :=
  let '(r, g, b, a) := t in (clip8 r, clip8 g, clip8 b, clip8 a).

(** [pic.load()] on what [take_picture] returned: [None] has no [load]. *)
Definition load (pic : option Picture) : result Picture :=
  match pic with
  | Some p => Ok p
  | None => Raise AttributeError
  end.

(** [a <= b] on extended floats, as [not (b < a)]. *)
Definition ext_le (a b : ext) : Prop := ext_ltb b a = false.

(** [self.obstacles[name]] *)
Fixpoint lookup (k : string) (d : list (string * Obstacle))
  : option Obstacle :=
  match d with
  | [] => None
  | (k', v) :: rest => if String.eqb k k' then Some v else lookup k rest
  end.

Section WithCollaborators.

Context {collab : Collaborators}.

(** The body of the two nested loops of [get_point_cloud]. *)
Definition cloud_point (c : Camera) (depth_pixels color_pixels : Picture)
    (x y : Z) (points : list (list Z)) : result (list (list Z)) :=
  dist_color <- getpixel depth_pixels x y ;;
  color <- getpixel color_pixels x y ;;
  let '(d, _, _, _) := dist_color in
  let '(r, g, b, _) := color in
  if negb (d =? 255) then
    Ok (points
        ++ [[fst (cameraShape c) - x - 1; snd (cameraShape c) - y - 1;
             d; r; g; b]])
  else Ok points.

(** [Camera.get_point_cloud]: the camera after the two pictures, the
    points and the lines printed. *)
Definition get_point_cloud (c : Camera)
  : result (Camera * list (list Z) * list string) :=
  '(c, depth_pic, out1) <- take_picture c "depth" ;;
  depth_pixels <- load depth_pic ;;
  '(c, color_pic, out2) <- take_picture c "color" ;;
  color_pixels <- load color_pic ;;
  points <-
    for_each (range (fst (cameraShape c)))
      (fun x points =>
         for_each (range (snd (cameraShape c)))
           (fun y points => cloud_point c depth_pixels color_pixels x y points)
           points)
      [] ;;
  Ok (c, points, out1 ++ out2).

End WithCollaborators.

End CameraMore.

(* ================================================================== *)
(** ** world.py: walls *)

Module WorldWalls.

Import Worlds.

(** [World.add_boundary_walls], on the fields it reads: the flag
    [boundary_wall], [boundary_wall_color], the size and the walls. *)
Definition add_boundary_walls (boundary_wall : bool)
    (boundary_wall_color : Color) (w : World) : World :=
  if boundary_wall then
    let p1 := mkPoint 0 0 in
    let p2 := mkPoint 0 (height w) in
    let p3 := mkPoint (width w) (height w) in
    let p4 := mkPoint (width w) 0 in
    mkWorld (world_id w) (width w) (height w) (_robots w)
      (walls w
       ++ [mkWall boundary_wall_color None [mkLine p1 p2];
           mkWall boundary_wall_color None [mkLine p2 p3];
           mkWall boundary_wall_color None [mkLine p3 p4];
           mkWall boundary_wall_color None [mkLine p4 p1]])
  else w.

(** [World.clear_boundary_walls] *)
Definition clear_boundary_walls (w : World) : World :=
  mkWorld (world_id w) (width w) (height w) (_robots w)
    (filter (fun wall => (1 <? List.length (lines wall))%nat) (walls w)).

(** One entry of ["walls"] in the world's configuration. *)
Record WallConfig : Type := mkWallConfig {
  k_color : string;
  k_p1 : Q * Q;
  k_p2 : Q * Q
}.

(** [wall.lines[i]], [i] not negative. *)
Definition line_at (wall : Wall) (i : nat) : result Line :=
  match nth_error (lines wall) i with
  | Some l => Ok l
  | None => Raise IndexError
  end.

(** The loop over [self.walls] in [World.to_json]: only the boxes of four
    lines that belong to no robot are written. *)
Fixpoint walls_to_json (ws : list Wall) : result (list WallConfig) :=
  match ws with
  | [] => Ok []
  | wall :: rest =>
      entry <-
        (if (List.length (lines wall) =? 4)%nat
            && match wall_robot wall with None => true | Some _ => false end
         then
           l0 <- line_at wall 0 ;;
           l2 <- line_at wall 2 ;;
           Ok [mkWallConfig (Color_str (wall_color wall))
                 (px (p1 l0), py (p1 l0)) (px (p1 l2), py (p1 l2))]
         else Ok []) ;;
      more <- walls_to_json rest ;;
      Ok (entry ++ more)
  end.

Section WithEnvironment.

Context {env : Environment}.

Variable COLORS_get : string -> option string.

(** [World.add_wall]: the colour is what the configuration holds, a name
    or a hexcode. *)
Definition add_wall (st : State) (color : string) (x1 y1 x2 y2 : Q)
  : result State :=
  let p1 := mkPoint x1 y1 in
  let p2 := mkPoint x2 y1 in
  let p3 := mkPoint x2 y2 in
  let p4 := mkPoint x1 y2 in
  c <- Color_init COLORS_get (OfStr color) None None None ;;
  let wall :=
    mkWall c None [mkLine p1 p2; mkLine p2 p3; mkLine p3 p4; mkLine p4 p1] in
  let w := self st in
  Ok (update
        (set_self st
           (mkWorld (world_id w) (width w) (height w) (_robots w)
              (walls w ++ [wall])))).

(** The loop over [config["walls"]] in [World.from_json]. *)
Definition add_walls (st : State) (config : list WallConfig) : result State :=
  Cameras.for_each config
    (fun wall st =>
       add_wall st (k_color wall) (fst (k_p1 wall)) (snd (k_p1 wall))
         (fst (k_p2 wall)) (snd (k_p2 wall)))
    st.

End WithEnvironment.

End WorldWalls.

(* ================================================================== *)
(** ** backends/base.py and backends/pil.py: the raster backend *)

Module PIL.

(** One entry of a frame of the transform stack. *)
Inductive transform : Type :=
| Translate (x y : Q)
| Rotate (angle : Q).

(** What [fill_style] and [stroke_style] can hold: a string (the class
    default is the empty string, [set_stroke_style] and [set_fill_style]
    store a hexcode), a [Color], or [None]. *)
Inductive style : Type :=
| StyleStr (s : string)
| StyleColor (c : Color)
| StyleNone.

(** What [get_color] hands to Pillow. *)
Inductive ink : Type :=
| InkNone
| InkStr (s : string)
| InkTuple (t : Z * Z * Z * Z).

(** The calls made on [self.draw]. *)
Inductive draw_call : Type :=
| DrawLine (x1 y1 x2 y2 : Q) (fill : ink) (width : Q)
| DrawPolygon (xy : list (Q * Q)) (fill outline : ink).

Record Backend : Type := mkBackend {
  width : Q;
  height : Q;
  _scale : Q;
  matrix : list (list transform);
  line_width : Q;
  stroke_style : style;
  fill_style : style;
  points : list (Q * Q);
  calls : list draw_call
}.

(** [distance] of utils and the functions of [math] used by [p]. *)
Class Trig : Type := {
  distance : Q -> Q -> Q -> Q -> Q;
  atan2 : Q -> Q -> Q;
  cos : Q -> Q;
  sin : Q -> Q
}.

Definition set_matrix (b : Backend) (m : list (list transform)) : Backend :=
  mkBackend (width b) (height b) (_scale b) m (line_width b)
    (stroke_style b) (fill_style b) (points b) (calls b).

Definition set_stroke (b : Backend) (s : style) : Backend :=
  mkBackend (width b) (height b) (_scale b) (matrix b) (line_width b)
    s (fill_style b) (points b) (calls b).

Definition set_fill_ (b : Backend) (s : style) : Backend :=
  mkBackend (width b) (height b) (_scale b) (matrix b) (line_width b)
    (stroke_style b) s (points b) (calls b).

Definition set_line_width (b : Backend) (w : Q) : Backend :=
  mkBackend (width b) (height b) (_scale b) (matrix b) w
    (stroke_style b) (fill_style b) (points b) (calls b).

Definition set_points (b : Backend) (pts : list (Q * Q)) : Backend :=
  mkBackend (width b) (height b) (_scale b) (matrix b) (line_width b)
    (stroke_style b) (fill_style b) pts (calls b).

Definition call (b : Backend) (c : draw_call) : Backend :=
  mkBackend (width b) (height b) (_scale b) (matrix b) (line_width b)
    (stroke_style b) (fill_style b) (points b) (calls b ++ [c]).

(** [BLACK = Color(0)] *)
Definition BLACK : Color := Color1 0.

(** [Backend.set_stroke_style] and [Backend.set_fill_style] *)
Definition set_stroke_style (b : Backend) (color : Color) : Backend :=
  set_stroke b (StyleStr (to_hexcode color)).

Definition set_fill_style (b : Backend) (color : Color) : Backend :=
  set_fill_ b (StyleStr (to_hexcode color)).

(** [Backend.strokeStyle]: a colour object is true, [None] is not. *)
Definition strokeStyle (b : Backend) (color : option Color) (width : Q)
  : Backend :=
  let b := match color with
           | Some c => set_stroke_style b c
           | None => set_stroke_style b BLACK
           end in
  set_line_width b width.

(** [Backend.noStroke], [Backend.set_fill], [Backend.noFill] and
    [Backend.lineWidth] *)
Definition noStroke (b : Backend) : Backend := set_stroke_style b BLACK.

Definition set_fill (b : Backend) (color : option Color) : Backend :=
  match color with
  | Some c => set_fill_style b c
  | None => set_fill_style b BLACK
  end.

Definition noFill (b : Backend) : Backend := set_fill_style b BLACK.

Definition lineWidth (b : Backend) (width : Q) : Backend :=
  set_line_width b width.

(** [PILBackend.get_color] *)
Definition get_color (color : style) : ink :=
  match color with
  | StyleColor c => InkTuple (to_tuple c)
  | StyleStr s => if String.eqb s "" then InkNone else InkStr s
  | StyleNone => InkNone
  end.

(** [PILBackend.get_style]: any name other than "fill" and "stroke" falls
    off the end of the function. *)
Definition get_style (b : Backend) (style : string) : ink :=
  if String.eqb style "fill" then get_color (fill_style b)
  else if String.eqb style "stroke" then get_color (stroke_style b)
  else InkNone.

(** [PILBackend.pushMatrix] *)
Definition pushMatrix (b : Backend) : Backend :=
  set_matrix b (matrix b ++ [[]]).

(** [PILBackend.popMatrix]: [list.pop()] of an empty list raises. *)
Definition popMatrix (b : Backend) : result Backend :=
  match rev (matrix b) with
  | [] => Raise IndexError
  | _ :: frames => Ok (set_matrix b (rev frames))
  end.

(** [self.matrix[-1].append(t)] *)
Definition append_transform (b : Backend) (t : transform) : result Backend :=
  match rev (matrix b) with
  | [] => Raise IndexError
  | frame :: frames => Ok (set_matrix b (rev frames ++ [frame ++ [t]]))
  end.

(** [PILBackend.translate] and [PILBackend.rotate] *)
Definition translate (b : Backend) (x y : Q) : result Backend :=
  append_transform b (Translate x y).

Definition rotate (b : Backend) (angle : Q) : result Backend :=
  append_transform b (Rotate angle).

(** [PILBackend.scale] and [PILBackend.resetScale] do nothing. *)
Definition scale (b : Backend) (x y : Q) : Backend := b.
Definition resetScale (b : Backend) : Backend := b.

(** [PILBackend.beginShape] *)
Definition beginShape (b : Backend) : Backend := set_points b [].

(** The sum of the translations of a list of transforms. *)
Definition offsets (ts : list transform) : Q * Q :=
  fold_right
    (fun t acc =>
       match t with
       | Translate tx ty => ((tx + fst acc)%Q, (ty + snd acc)%Q)
       | Rotate _ => acc
       end)
    (0%Q, 0%Q) ts.

(** The transforms of the stack in the order in which [p] applies them:
    frame after frame, each frame from its last entry to its first. *)
Definition applied (frames : list (list transform)) : list transform :=
  concat (map (@rev transform) frames).

(** What a translation adds to each coordinate. *)
Definition shift_x (t : transform) : Q :=
  match t with
  | Translate tx _ => tx
  | Rotate _ => 0%Q
  end.

Definition shift_y (t : transform) : Q :=
  match t with
  | Translate _ ty => ty
  | Rotate _ => 0%Q
  end.

Definition is_translate (t : transform) : Prop :=
  match t with
  | Translate _ _ => True
  | Rotate _ => False
  end.

Section WithTrig.

Context {trig : Trig}.

(** One step of the inner loop of [p]. *)
Definition apply_transform (xy : Q * Q) (t : transform) : Q * Q :=
  let '(x, y) := xy in
  match t with
  | Translate tx ty => (x + tx, y + ty)%Q
  | Rotate angle =>
      let dist := distance 0 0 x y in
      let angle2 := atan2 (- x)%Q y in
      ((dist * cos (angle2 + angle + math_pi / 2))%Q,
       (dist * sin (angle2 + angle + math_pi / 2))%Q)
  end.

(** [PILBackend.p] *)
Definition p (b : Backend) (x y : Q) : Q * Q :=
  let '(x, y) :=
    fold_left
      (fun xy frame => fold_left apply_transform (rev frame) xy)
      (matrix b) (x, y) in
  ((x * _scale b)%Q, (y * _scale b)%Q).

(** [PILBackend.draw_line] *)
Definition draw_line (b : Backend) (x1 y1 x2 y2 : Q) : Backend :=
  let '(p1x, p1y) := p b x1 y1 in
  let '(p2x, p2y) := p b x2 y2 in
  call b (DrawLine p1x p1y p2x p2y (get_style b "stroke") (line_width b)).

(** [PILBackend.draw_lines]: [points] is a list of pairs. *)
Definition draw_lines (b : Backend) (points : list (Q * Q))
    (stroke_style : style) : result Backend :=
  let b := set_stroke b stroke_style in
  let n := Z.of_nat (List.length points) in
  Cameras.for_each (range n)
    (fun i b =>
       if i <? n - 2 then
         a <- Cameras.getitem points i ;;
         c <- Cameras.getitem points (i + 1) ;;
         Ok (draw_line b (fst a) (snd a) (fst c) (snd c))
       else Ok b)
    b.

(** [PILBackend.draw_rect] *)
Definition draw_rect (b : Backend) (x y width height : Q) : Backend :=
  let p1 := p b x y in
  let p2 := p b (x + width)%Q y in
  let p3 := p b (x + width)%Q (y + height)%Q in
  let p4 := p b x (y + height)%Q in
  call b (DrawPolygon [p1; p2; p3; p4] (get_style b "fill")
            (get_style b "outline")).

(** [PILBackend.draw_ellipse]: the second corner is given the height of
    the third. *)
Definition draw_ellipse (b : Backend) (x y radiusX radiusY : Q) : Backend :=
  let p1 := p b x y in
  let p2 := p b (x + radiusX * 2)%Q y in
  let p3 := p b (x + radiusX * 2)%Q (y + radiusY * 2)%Q in
  let p4 := p b x (y + radiusY * 2)%Q in
  call b (DrawPolygon [p1; (fst p2, snd p3); p3; p4] (get_style b "fill")
            (get_style b "stroke")).

(** [PILBackend.draw_arc] *)
Definition draw_arc (b : Backend) (x y width height startAngle endAngle : Q)
  : Backend :=
  draw_line b x y (x + width)%Q y.

(** [PILBackend.clear] *)
Definition clear (b : Backend) : Backend :=
  draw_rect b 0 0 (width b) (height b).

(** [Camera.draw] of the camera device, on this backend: the float
    literals are read as the decimals written. *)
Definition Camera_draw (b : Backend) : Backend :=
  let b := set_fill b (Some (Color3 0 64 0)) in
  let b := strokeStyle b None 0 in
  draw_rect b 5 (- (333 # 100))%Q (133 # 100)%Q (633 # 100)%Q.

(** [PILBackend.vertex] and [PILBackend.endShape] *)
Definition vertex (b : Backend) (x y : Q) : Backend :=
  set_points b (points b ++ [p b x y]).

(** [draw.polygon] refuses a list of fewer than two points with a
    [TypeError] (coordinate list must contain at least 2 coordinates). *)
Definition endShape (b : Backend) : result Backend :=
  if (List.length (points b) <? 2)%nat then Raise TypeError
  else
    Ok (call b (DrawPolygon (points b) (get_style b "fill")
                  (get_style b "stroke"))).

End WithTrig.

End PIL.

(* ================================================================== *)
(** ** More scenes *)

Module MoreScenes.

Import Cameras Scenes.

(** The small camera after a configuration that only widens it to four
    columns: its buffer still has two. *)
Definition widened_camera : Camera :=
  from_json small_camera
    (mkConfig None (Some 4) None None None None None None None).

(** The small camera with a wall at distance 50 in both columns. *)
Definition camera_facing_wall : Camera :=
  set_hits small_camera [[grey_wall 50]; [grey_wall 50]].

(** A world with a ground image that is grey everywhere, a robot in it
    and the small camera on that robot. *)
Definition meadow : World :=
  mkWorld 0 100 50 3 (Color3 0 128 0)
    (Some (fun _ _ => Ok (90, 90, 90, 255))) [].

Definition grazer : Robot := mkRobot "grazer" 10 10 0 (Some meadow) false.

Definition meadow_camera : Camera :=
  attach (Camera_init 2 8 60 (1 # 2) 1 true false 100) grazer.



(** A table of colour names with a single entry. *)
Definition one_color (n : string) : option string :=
  if String.eqb n "red" then Some "#FF0000FF"%string else None.

(** Stand-ins for [distance] and the functions of [math]; the scenes
    below only translate. *)
Definition flat : PIL.Trig :=
  {| PIL.distance := fun _ _ _ _ => 0%Q;
     PIL.atan2 := fun _ _ => 0%Q;
     PIL.cos := fun _ => 1%Q;
     PIL.sin := fun _ => 0%Q |}.

(** A backend of 100 by 50 at scale 3 with two frames of translations. *)
Definition shifted : PIL.Backend :=
  PIL.mkBackend 100 50 3
    [[PIL.Translate 1 2]; [PIL.Translate 3 4; PIL.Translate 5 6]]
    1 (PIL.StyleStr "") (PIL.StyleStr "") [] [].

End MoreScenes.

(* ================================================================== *)
(** ** devices/cameras.py: the configuration in binary64

    The construction and configuration methods of the camera once more,
    with Python's floats as the binary64 numbers they are: what [to_json]
    writes for the angle depends on how [* math.pi / 180.0] and
    [* 180 / math.pi] round.  An [int] given where a float is expected
    (as in [angle=60]) is the float of the same value. *)

Module Binary64.

Import PrimFloat.

(** [math.pi], 3.141592653589793 *)
Definition math_pi : float := 0x1.921fb54442d18p+1%float.

(** The attributes that [__init__], [initialize], [reset], [set_fov],
    [set_size], [from_json] and [to_json] assign or read.  There is no
    [obstacles]: that attribute does not exist before [take_picture]
    assigns it. *)
Record Camera : Type := mkCamera {
  robot : option Cameras.Robot;
  type : string;
  time : float;
  cameraShape : Z * Z;
  max_range : Z;
  colorsFadeWithDistance : float;
  sizeFadeWithDistance : float;
  reflectGround : bool;
  reflectSky : bool;
  angle : float;
  hits : list (list Cameras.Hit)
}.

(** The configuration dictionary: one optional entry per recognised key. *)
Record Config : Type := mkConfig {
  k_class : option string;
  k_width : option Z;
  k_height : option Z;
  k_colorsFadeWithDistance : option float;
  k_sizeFadeWithDistance : option float;
  k_reflectGround : option bool;
  k_reflectSky : option bool;
  k_angle : option float;
  k_max_range : option Z
}.

Definition set_hits (c : Camera) (h : list (list Cameras.Hit)) : Camera :=
  mkCamera (robot c) (type c) (time c) (cameraShape c) (max_range c)
    (colorsFadeWithDistance c) (sizeFadeWithDistance c) (reflectGround c)
    (reflectSky c) (angle c) h.

Definition set_cameraShape (c : Camera) (s : Z * Z) : Camera :=
  mkCamera (robot c) (type c) (time c) s (max_range c)
    (colorsFadeWithDistance c) (sizeFadeWithDistance c) (reflectGround c)
    (reflectSky c) (angle c) (hits c).

Definition set_max_range (c : Camera) (m : Z) : Camera :=
  mkCamera (robot c) (type c) (time c) (cameraShape c) m
    (colorsFadeWithDistance c) (sizeFadeWithDistance c) (reflectGround c)
    (reflectSky c) (angle c) (hits c).

Definition set_colorsFadeWithDistance (c : Camera) (f : float) : Camera :=
  mkCamera (robot c) (type c) (time c) (cameraShape c) (max_range c)
    f (sizeFadeWithDistance c) (reflectGround c)
    (reflectSky c) (angle c) (hits c).

Definition set_sizeFadeWithDistance (c : Camera) (f : float) : Camera :=
  mkCamera (robot c) (type c) (time c) (cameraShape c) (max_range c)
    (colorsFadeWithDistance c) f (reflectGround c)
    (reflectSky c) (angle c) (hits c).

Definition set_reflectGround (c : Camera) (b : bool) : Camera :=
  mkCamera (robot c) (type c) (time c) (cameraShape c) (max_range c)
    (colorsFadeWithDistance c) (sizeFadeWithDistance c) b
    (reflectSky c) (angle c) (hits c).

Definition set_reflectSky (c : Camera) (b : bool) : Camera :=
  mkCamera (robot c) (type c) (time c) (cameraShape c) (max_range c)
    (colorsFadeWithDistance c) (sizeFadeWithDistance c) (reflectGround c)
    b (angle c) (hits c).

(** [camera.angle = a] *)
Definition set_angle (c : Camera) (a : float) : Camera :=
  mkCamera (robot c) (type c) (time c) (cameraShape c) (max_range c)
    (colorsFadeWithDistance c) (sizeFadeWithDistance c) (reflectGround c)
    (reflectSky c) a (hits c).

(** [Camera.reset] *)
Definition reset (c : Camera) : Camera :=
  set_hits c (map (fun _ => []) (range (fst (cameraShape c)))).

(** [Camera.set_fov]: [self.angle = angle * math.pi / 180.0] *)
Definition set_fov (c : Camera) (degrees : float) : Camera :=
  reset (set_angle c (degrees * math_pi / 180)%float).

(** [Camera.set_size] *)
Definition set_size (c : Camera) (width height : Z) : Camera :=
  reset (set_cameraShape c (width, height)).

(** [Camera.initialize], on the object that so far only has [robot]. *)
Definition initialize (r : option Cameras.Robot) : Camera :=
  reset
    (set_fov
       (mkCamera r "camera" 0%float (256, 128) 1000 0.5%float 1%float
          true false 0%float [])
       60%float).

Definition when {A : Type} (o : option A) (f : Camera -> A -> Camera)
    (c : Camera) : Camera :=
  match o with
  | Some v => f c v
  | None => c
  end.

(** [Camera.from_json] *)
Definition from_json (c : Camera) (config : Config) : Camera :=
  let c := when (k_width config)
             (fun c w => set_cameraShape c (w, snd (cameraShape c))) c in
  let c := when (k_height config)
             (fun c h => set_cameraShape c (fst (cameraShape c), h)) c in
  let c := when (k_colorsFadeWithDistance config)
             set_colorsFadeWithDistance c in
  let c := when (k_sizeFadeWithDistance config) set_sizeFadeWithDistance c in
  let c := when (k_reflectGround config) set_reflectGround c in
  let c := when (k_reflectSky config) set_reflectSky c in
  let c := when (k_angle config) set_fov c in
  let c := when (k_max_range config) set_max_range c in
  c.

(** [Camera.to_json]: ["angle": self.angle * 180 / math.pi] *)
Definition to_json (c : Camera) : Config :=
  mkConfig (Some "Camera"%string)
    (Some (fst (cameraShape c)))
    (Some (snd (cameraShape c)))
    (Some (colorsFadeWithDistance c))
    (Some (sizeFadeWithDistance c))
    (Some (reflectGround c))
    (Some (reflectSky c))
    (Some (angle c * 180 / math_pi)%float)
    (Some (max_range c)).

(** [Camera.__init__] with its keyword arguments. *)
Definition Camera_init (width height : Z) (angle : float)
    (colorsFadeWithDistance sizeFadeWithDistance : float)
    (reflectGround reflectSky : bool) (max_range : Z) : Camera :=
  let config :=
    mkConfig None (Some width) (Some height) (Some colorsFadeWithDistance)
      (Some sizeFadeWithDistance) (Some reflectGround) (Some reflectSky)
      (Some angle) (Some max_range) in
  from_json (initialize None) config.

(** [Camera()] with every default. *)
Definition Camera_default : Camera :=
  Camera_init 256 128 60%float 0.5%float 1%float true false 1000.



End Binary64.

(* ================================================================== *)
(** * Properties *)

(** ** Colours *)

Section ColorProperties.

Variable COLORS_get : string -> option string.

Lemma int_of_inject_Z (n : Z) : int_of (inject_Z n) = n.
Proof. unfold int_of; simpl. apply Z.quot_1_r. Qed.

Lemma In_range (n k : Z) : 0 <= k < n -> In k (range n).
Proof.
  intros Hk. unfold range. apply in_map_iff.
  exists (Z.to_nat k). split; [lia |].
  apply in_seq. lia.
Qed.

Lemma range_In (n k : Z) : In k (range n) -> 0 <= k < n.
Proof.
  unfold range. intros H. apply in_map_iff in H.
  destruct H as [m [<- Hm]]. apply in_seq in Hm. lia.
Qed.

(** An 8-bit value prints as exactly two digits that read back as itself. *)
Lemma format_02X_byte (n : Z) :
  -15 <= n <= 255 ->
  exists d1 d2 : ascii,
    format_02X n = String d1 (String d2 EmptyString)
    /\ int16 (String d1 (String d2 EmptyString)) = Ok n.
Proof.
  intros Hn.
  assert (Hall :
    forallb
      (fun k =>
         match format_02X (k - 15) with
         | String d1 (String d2 EmptyString) =>
             match int16 (String d1 (String d2 EmptyString)) with
             | Ok m => m =? k - 15
             | Raise _ => false
             end
         | _ => false
         end) (range 271) = true) by (vm_compute; reflexivity).
  rewrite forallb_forall in Hall.
  specialize (Hall (n + 15) (In_range 271 (n + 15) ltac:(lia))).
  replace (n + 15 - 15) with n in Hall by lia.
  destruct (format_02X n) as [| d1 [| d2 [| ? ?]]]; try discriminate.
  exists d1, d2. split; [reflexivity |].
  destruct (int16 (String d1 (String d2 EmptyString))); try discriminate.
  apply Z.eqb_eq in Hall. now subst.
Qed.

Lemma hex_to_rgba_of_bytes (r1 r2 g1 g2 b1 b2 a1 a2 : ascii) (r g b a : Z) :
  int16 (String r1 (String r2 EmptyString)) = Ok r ->
  int16 (String g1 (String g2 EmptyString)) = Ok g ->
  int16 (String b1 (String b2 EmptyString)) = Ok b ->
  int16 (String a1 (String a2 EmptyString)) = Ok a ->
  hex_to_rgba
    (String "#" (String r1 (String r2 (String g1 (String g2
       (String b1 (String b2 (String a1 (String a2 EmptyString)))))))))
  = Ok (r, g, b, a).
Proof.
  intros Hr Hg Hb Ha. unfold hex_to_rgba, slice.
  cbn [substring Nat.sub String.length Nat.ltb Nat.leb].
  rewrite Hr, Hg, Hb, Ha. reflexivity.
Qed.

(** C6.  For all integers r, g, b, a in [0,255], [Color(r, g, b, a)] has
    exactly these channels, and building a colour from its [to_hexcode()]
    gives back the same colour: red = r, green = g, blue = b, alpha = a. *)
Theorem color_hexcode_roundtrip (r g b a : Z) :
  0 <= r <= 255 -> 0 <= g <= 255 -> 0 <= b <= 255 -> 0 <= a <= 255 ->
  let c := mkColor None (inject_Z r) (inject_Z g) (inject_Z b) (inject_Z a) in
  Color_init COLORS_get (OfNum (inject_Z r)) (Some (inject_Z g))
    (Some (inject_Z b)) (Some (inject_Z a)) = Ok c
  /\ Color_init COLORS_get (OfStr (to_hexcode c)) None None None = Ok c.
Proof.
  intros Hr Hg Hb Ha c. split; [reflexivity |].
  unfold to_hexcode, to_tuple, c; cbn [red green blue alpha].
  rewrite !int_of_inject_Z.
  destruct (format_02X_byte r ltac:(lia)) as (r1 & r2 & Er & Pr).
  destruct (format_02X_byte g ltac:(lia)) as (g1 & g2 & Eg & Pg).
  destruct (format_02X_byte b ltac:(lia)) as (b1 & b2 & Eb & Pb).
  destruct (format_02X_byte a ltac:(lia)) as (a1 & a2 & Ea & Pa).
  rewrite Er, Eg, Eb, Ea.
  cbn [String.append Color_init startswith_hash].
  replace (Ascii.eqb "#" "#") with true by reflexivity.
  rewrite (hex_to_rgba_of_bytes _ _ _ _ _ _ _ _ _ _ _ _ Pr Pg Pb Pa).
  reflexivity.
Qed.

(** C10.  [Color(n)] with a single number is the grey of that level with
    alpha 255, and [Color([r, g, b])] (a list or tuple of three) has the
    three channels given and alpha 255, whatever else is passed; every
    channel is defined. *)
Theorem color_single_and_triple_defaults (n r g b : Q)
    (green blue alpha : option Q) :
  Color_init COLORS_get (OfNum n) None None None = Ok (mkColor None n n n 255)
  /\ Color_init COLORS_get (OfSeq [r; g; b]) green blue alpha
     = Ok (mkColor None r g b 255).
Proof. split; reflexivity. Qed.

End ColorProperties.

Lemma color_hexcode_roundtrip_witness :
  let no_names := fun _ : string => @None string in
  let c := mkColor None 0 64 128 255 in
  Color_init no_names (OfNum 0) (Some 64%Q) (Some 128%Q) (Some 255%Q) = Ok c
  /\ Color_init no_names (OfStr (to_hexcode c)) None None None = Ok c.
Proof.
  apply (color_hexcode_roundtrip (fun _ => None) 0 64 128 255); lia.
Defined.

(** ** Numbers *)

Lemma ltb_lt (a b : Q) : ltb a b = true <-> (a < b)%Q.
Proof.
  unfold ltb. rewrite negb_true_iff.
  split; intros H.
  - apply Qnot_le_lt. intros Hle. apply Qle_bool_iff in Hle. congruence.
  - destruct (Qle_bool b a) eqn:E; [| reflexivity].
    apply Qle_bool_iff in E. exfalso. apply (Qlt_not_le _ _ H E).
Qed.

Lemma ltb_ge (a b : Q) : ltb a b = false <-> (b <= a)%Q.
Proof.
  unfold ltb. rewrite negb_false_iff. apply Qle_bool_iff.
Qed.


Lemma div_positive (a b : Q) : (0 < b)%Q -> div a b = Ok (a / b)%Q.
Proof.
  intros Hb. unfold div.
  destruct (Qeq_bool b 0) eqn:E; [| reflexivity].
  apply Qeq_bool_iff in E. lra.
Qed.

(** ** The camera *)

Section CameraProperties.

Import Cameras.

Context {collab : Collaborators}.


(** C9, the part that holds: [watch()] on a camera without a robot, or
    whose robot is in no world, prints the condition, returns [None] and
    leaves the camera as it is. *)
Lemma watch_unattached (c : Camera) :
  robot c = None \/ (exists r, robot c = Some r /\ world r = None) ->
  watch c
  = (c, None, [watch_error]).
Proof.
  intros [H | [r [H Hw]]]; unfold watch; rewrite H; [| rewrite Hw];
    reflexivity.
Qed.

(** C9, the part that fails: with Pillow installed, [take_picture()] on a
    camera without a robot, or whose robot is in no world, raises
    [AttributeError]; nothing is printed and nothing is returned. *)
Theorem take_picture_unattached_raises (c : Camera) (type : string) :
  PIL_available = true ->
  robot c = None \/ (exists r, robot c = Some r /\ world r = None) ->
  take_picture c type = Raise AttributeError.
Proof.
  intros Hpil H. unfold take_picture, _update, the_world, the_robot.
  rewrite Hpil. cbn [negb].
  destruct H as [H | [r [H Hw]]]; rewrite H; cbn [bind]; [| rewrite Hw];
    reflexivity.
Qed.

(** *** The ray fan *)

Lemma replace_nth_length {A : Type} (l : list A) (n : nat) (v : A) :
  List.length (replace_nth l n v) = List.length l.
Proof.
  revert n. induction l as [| a l IH]; intros [| n]; cbn; auto.
Qed.

Lemma nth_error_replace_nth_same {A : Type} (l : list A) (n : nat) (v : A) :
  (n < List.length l)%nat -> nth_error (replace_nth l n v) n = Some v.
Proof.
  revert n. induction l as [| a l IH]; intros [| n] Hn; cbn in *;
    try lia; [reflexivity |].
  apply IH. lia.
Qed.

Lemma nth_error_replace_nth_other {A : Type} (l : list A) (n k : nat)
    (v : A) :
  n <> k -> nth_error (replace_nth l n v) k = nth_error l k.
Proof.
  revert n k. induction l as [| a l IH]; intros [| n] [| k] Hnk; cbn;
    try reflexivity; try congruence.
  apply IH. congruence.
Qed.

Lemma setitem_in_range {A : Type} (l : list A) (i : Z) (v : A) :
  0 <= i < Z.of_nat (List.length l) ->
  setitem l i v = Ok (replace_nth l (Z.to_nat i) v).
Proof.
  intros Hi. unfold setitem.
  destruct (i <? 0) eqn:E; [apply Z.ltb_lt in E; lia |].
  replace (0 <=? i) with true by (symmetry; apply Z.leb_le; lia).
  replace (i <? Z.of_nat (List.length l)) with true
    by (symmetry; apply Z.ltb_lt; lia).
  reflexivity.
Qed.

Lemma inject_Z_positive (n : Z) : 0 < n -> (0 < inject_Z n)%Q.
Proof. intros Hn. unfold Qlt. cbn. lia. Qed.

Lemma set_hits_set_hits (c : Camera) (h h' : list (list Hit)) :
  set_hits (set_hits c h) h' = set_hits c h'.
Proof. reflexivity. Qed.

Lemma set_hits_hits (c : Camera) : set_hits c (hits c) = c.
Proof. destruct c; reflexivity. Qed.

Lemma update_step (c : Camera) (r : Robot) (hs : list (list Hit)) (i : Z) :
  robot c = Some r ->
  0 <= i < fst (cameraShape c) ->
  i < Z.of_nat (List.length hs) ->
  (angle <- column_angle (set_hits c hs) i ;;
   r <- the_robot (set_hits c hs) ;;
   h <- setitem (hits (set_hits c hs)) i
          (cast_ray r (x r) (y r)
             (math_pi / 2 - direction r - angle)%Q 1000) ;;
   Ok (set_hits (set_hits c hs) h))
  = Ok (set_hits c
         (replace_nth hs (Z.to_nat i)
            (cast_ray r (x r) (y r)
              (math_pi / 2 - direction r
               - (inject_Z i / inject_Z (fst (cameraShape c)) * angle c
                  - angle c / 2))%Q
              1000))).
Proof.
  intros Hr Hi Hlen.
  unfold column_angle, the_robot.
  change (cameraShape (set_hits c hs)) with (cameraShape c).
  change (angle (set_hits c hs)) with (angle c).
  change (robot (set_hits c hs)) with (robot c).
  change (hits (set_hits c hs)) with hs.
  rewrite div_positive by (apply inject_Z_positive; lia).
  rewrite Hr. cbn [bind].
  rewrite setitem_in_range by lia.
  cbn [bind]. rewrite set_hits_set_hits. reflexivity.
Qed.

Lemma update_loop (c : Camera) (r : Robot) (l : list Z) :
  robot c = Some r ->
  forall hs : list (list Hit),
    (forall i, In i l ->
       0 <= i < fst (cameraShape c) /\ i < Z.of_nat (List.length hs)) ->
    exists hs' : list (list Hit),
      for_each l
        (fun i c =>
           angle <- column_angle c i ;;
           r <- the_robot c ;;
           h <- setitem (hits c) i
                  (cast_ray r (x r) (y r)
                     (math_pi / 2 - direction r - angle)%Q 1000) ;;
           Ok (set_hits c h))
        (set_hits c hs)
      = Ok (set_hits c hs')
      /\ List.length hs' = List.length hs
      /\ (forall i, In i l ->
            nth_error hs' (Z.to_nat i)
            = Some
                (cast_ray r (x r) (y r)
                  (math_pi / 2 - direction r
                   - (inject_Z i / inject_Z (fst (cameraShape c)) * angle c
                      - angle c / 2))%Q
                  1000))
      /\ (forall k, (forall i, In i l -> Z.to_nat i <> k) ->
            nth_error hs' k = nth_error hs k).
Proof.
  intros Hr. induction l as [| a l IH]; intros hs Hl.
  - exists hs. split; [reflexivity |]. split; [reflexivity |].
    split; [intros i [] | reflexivity].
  - destruct (Hl a (or_introl eq_refl)) as [Ha Halen].
    cbn [for_each]. rewrite (update_step c r hs a Hr Ha Halen).
    cbn [bind].
    match goal with
    | |- context [for_each l _ (set_hits c ?h)] =>
        destruct (IH h) as (hs' & Hrun & Hlen & Hin & Hout)
    end.
    { intros i Hi. rewrite replace_nth_length.
      apply Hl. right. exact Hi. }
    exists hs'. split; [exact Hrun |].
    rewrite replace_nth_length in Hlen.
    split; [exact Hlen |]. split.
    + intros i [<- | Hi]; [| apply Hin; exact Hi].
      destruct (in_dec Z.eq_dec a l) as [Hal | Hal]; [apply Hin; exact Hal |].
      rewrite Hout.
      * apply nth_error_replace_nth_same. lia.
      * intros j Hj E. apply Hal.
        assert (0 <= j) by (apply Hl; right; exact Hj).
        assert (j = a) by lia. subst j. exact Hj.
    + intros k Hk. rewrite Hout.
      * apply nth_error_replace_nth_other. apply Hk. left. reflexivity.
      * intros i Hi. apply Hk. right. exact Hi.
Qed.

(** C1, as the code has it.  For a camera on a robot in a world, whose hit
    buffer has a slot for every column, [_update] finishes; it stamps the
    camera with the world's time and, for every column i in [0, width),
    stores the ray cast from the robot's (x, y) at
    pi/2 - direction - (i/width * angle - angle/2).  The cast distance is
    the constant 1000, whatever [max_range] is configured. *)
Theorem _update_ray_fan (c : Camera) (r : Robot) (w : World) :
  robot c = Some r ->
  world r = Some w ->
  fst (cameraShape c) <= Z.of_nat (List.length (hits c)) ->
  exists hs' : list (list Hit),
    _update c = Ok (set_hits (set_time c (w_time w)) hs')
    /\ List.length hs' = List.length (hits c)
    /\ forall i, 0 <= i < fst (cameraShape c) ->
         nth_error hs' (Z.to_nat i)
         = Some
             (cast_ray r (x r) (y r)
                (math_pi / 2 - direction r
                 - (inject_Z i / inject_Z (fst (cameraShape c)) * angle c
                    - angle c / 2))%Q
                1000).
Proof.
  intros Hr Hw Hlen. unfold _update, the_world, the_robot.
  rewrite Hr. cbn [bind]. rewrite Hw.
  set (c0 := set_time c (w_time w)).
  destruct (update_loop c0 r (range (fst (cameraShape c0))) Hr (hits c0))
    as (hs' & Hrun & Hlen' & Hin & _).
  { intros i Hi. apply range_In in Hi.
    change (cameraShape c0) with (cameraShape c) in *.
    change (hits c0) with (hits c). lia. }
  rewrite set_hits_hits in Hrun.
  exists hs'. split; [exact Hrun |]. split; [exact Hlen' |].
  intros i Hi. apply (Hin i). apply In_range. exact Hi.
Qed.

(** *** The closest wall *)


Lemma getitem_nil {A : Type} (i : Z) : @getitem A [] i = Raise IndexError.
Proof.
  unfold getitem. cbn [List.length].
  destruct (i <? 0) eqn:E.
  - apply Z.ltb_lt in E.
    replace (0 <=? i + Z.of_nat 0) with false
      by (symmetry; apply Z.leb_gt; lia).
    reflexivity.
  - destruct (0 <=? i); [| reflexivity].
    replace (i <? Z.of_nat 0) with false
      by (symmetry; apply Z.ltb_ge; apply Z.ltb_ge in E; lia).
    reflexivity.
Qed.

(** *** The two passes of the picture *)

Lemma for_each_invariant {A S : Type} (P : S -> Prop) (l : list A)
    (body : A -> S -> result S) :
  (forall a s s', In a l -> P s -> body a s = Ok s' -> P s') ->
  forall s s', P s -> for_each l body s = Ok s' -> P s'.
Proof.
  induction l as [| a l IH]; intros Hbody s s' Hs Hrun; cbn in Hrun.
  - injection Hrun as <-. exact Hs.
  - destruct (body a s) as [s1 |] eqn:E; cbn in Hrun; [| discriminate].
    apply (IH (fun a0 t t' Hin => Hbody a0 t t' (or_intror Hin)) s1 s');
      [| exact Hrun].
    apply (Hbody a s s1); [left; reflexivity | exact Hs | exact E].
Qed.

Ltac open_bind H v :=
  match type of H with
  | bind ?m _ = Ok _ =>
      let E := fresh "E" in
      destruct m as [v |] eqn:E; cbn [bind] in H; [| discriminate H]
  end.

(** A pixel written in column [i >= 0] leaves every other column alone. *)
Lemma putpixel_other_column (p p' : Picture) (i j : Z) (t : Z * Z * Z * Z) :
  0 <= i -> putpixel p i j t = Ok p' ->
  forall a b, a <> i -> pixel p' a b = pixel p a b.
Proof.
  intros Hi H a b Hab. unfold putpixel in H.
  replace (i <? 0) with false in H by (symmetry; apply Z.ltb_ge; lia).
  destruct (_ || _) in H; [discriminate |].
  destruct t as [[[r g] bl] al]. injection H as <-. cbn [pixel].
  replace (a =? i) with false by (symmetry; apply Z.eqb_neq; exact Hab).
  reflexivity.
Qed.

Lemma wall_column_other_column (c : Camera) (type : string)
    (area : option (list ((Q * Q) * (Q * Q)))) (size : Q) (i : Z)
    (pic pic' : Picture) :
  0 <= i -> wall_column c type area size i pic = Ok pic' ->
  forall a b, a <> i -> pixel pic' a b = pixel pic a b.
Proof.
  intros Hi H. unfold wall_column in H.
  open_bind H column.
  destruct (_ =? _)%nat in H; [injection H as <-; reflexivity |].
  open_bind H hit. open_bind H look. destruct look as [hcolor high].
  revert H.
  apply (for_each_invariant
           (fun p => forall a b, a <> i -> pixel p a b = pixel pic a b));
    [| reflexivity].
  intros j s s' _ Hs Hbody a b Hab. rewrite <- (Hs a b Hab).
  open_bind Hbody q.
  destruct (ltb (inject_Z j) (high / 2)%Q).
  { apply (putpixel_other_column _ _ _ _ _ Hi Hbody a b Hab). }
  destruct (ltb (inject_Z j) _).
  { destruct hcolor as [hc |].
    - apply (putpixel_other_column _ _ _ _ _ Hi Hbody a b Hab).
    - injection Hbody as <-. reflexivity. }
  open_bind Hbody color.
  apply (putpixel_other_column _ _ _ _ _ Hi Hbody a b Hab).
Qed.

Lemma filter_none {A : Type} (f : A -> bool) (l : list A) :
  (forall a, In a l -> f a = false) -> filter f l = [].
Proof.
  induction l as [| a l IH]; intros H; cbn; [reflexivity |].
  rewrite (H a (or_introl eq_refl)). apply IH.
  intros b Hb. apply H. right. exact Hb.
Qed.

(** C4 (amended).  A column whose hit list has no full-height hit is
    skipped by the first pass of [take_picture]: the pass writes none of
    its pixels, neither sky nor wall nor ground, so after the pass the
    column still holds what it held before, which in the new image of
    [take_picture] is (0, 0, 0, 0) in every row. *)
Theorem column_without_wall_is_skipped (c : Camera) (type : string)
    (area : option (list ((Q * Q) * (Q * Q)))) (size : Q) (i : Z)
    (column : list Hit) :
  getitem (hits c) i = Ok column ->
  (forall h, In h column -> ~ (hit_height h == 1)%Q) ->
  (forall pic, wall_column c type area size i pic = Ok pic)
  /\ (forall pic pic', wall_pass c type area size pic = Ok pic' ->
        forall j, pixel pic' i j = pixel pic i j)
  /\ (forall pic pic',
        Image_new (fst (cameraShape c)) (snd (cameraShape c)) = Ok pic ->
        wall_pass c type area size pic = Ok pic' ->
        forall j, pixel pic' i j = (0, 0, 0, 0)).
Proof.
  intros Hcol Hnone.
  assert (Hskip : forall pic, wall_column c type area size i pic = Ok pic).
  { intros pic. unfold wall_column. rewrite Hcol. cbn [bind].
    rewrite filter_none; [reflexivity |].
    intros h Hh. destruct (Qeq_bool (hit_height h) 1) eqn:E;
      [| reflexivity].
    apply Qeq_bool_iff in E. destruct (Hnone h Hh E). }
  assert (Hpass : forall pic pic', wall_pass c type area size pic = Ok pic' ->
                    forall j, pixel pic' i j = pixel pic i j).
  { intros pic pic'. unfold wall_pass.
    apply (for_each_invariant
             (fun p => forall j, pixel p i j = pixel pic i j));
      [| reflexivity].
    intros k s s' Hk Hs Hbody j. rewrite <- (Hs j).
    apply range_In in Hk.
    destruct (Z.eq_dec i k) as [<- | Hik].
    - rewrite Hskip in Hbody. injection Hbody as <-. reflexivity.
    - apply (wall_column_other_column c type area size k s s');
        [lia | exact Hbody | exact Hik]. }
  split; [exact Hskip |]. split; [exact Hpass |].
  intros pic pic' Hnew Hrun j. rewrite (Hpass pic pic' Hrun j).
  unfold Image_new in Hnew. destruct (_ || _) in Hnew; [discriminate |].
  injection Hnew as <-. reflexivity.
Qed.

(** The inner loop of the second pass stops at the first obstacle hit that
    lies behind the wall: that hit and every hit listed after it, nearer
    ones included, are neither recorded nor drawn. *)
Lemma obstacle_hits_break (c : Camera) (type : string) (size : Q) (i : Z)
    (closest_wall_dist : ext) (hit : Hit) (rest : list Hit)
    (st : list (string * Obstacle) * Picture) :
  ext_ltb closest_wall_dist (Fin (distance hit)) = true ->
  obstacle_hits c type size i closest_wall_dist (hit :: rest) st = Ok st.
Proof. intros H. cbn [obstacle_hits]. rewrite H. reflexivity. Qed.

(** When the first obstacle hit of a column, in list order, lies behind the
    closest wall, the second pass leaves the column as it is. *)
Lemma obstacle_column_break (c : Camera) (type : string) (size : Q) (i : Z)
    (column : list Hit) (hit : Hit) (rest : list Hit)
    (st : list (string * Obstacle) * Picture) :
  getitem (hits c) i = Ok column ->
  filter (fun hit => ltb (hit_height hit) 1) column = hit :: rest ->
  ext_ltb (find_closest_wall column) (Fin (distance hit)) = true ->
  obstacle_column c type size i st = Ok st.
Proof.
  intros Hcol Hfilter Hbehind. unfold obstacle_column.
  rewrite Hcol. cbn [bind]. rewrite Hfilter.
  apply obstacle_hits_break. exact Hbehind.
Qed.

End CameraProperties.

(** ** The camera's configuration, in binary64 *)

Section Configuration.

Import PrimFloat Binary64.



(** X6.  A camera built by the constructor serialises to the width,
    height, fade factors, flags and range it was given, unchanged; the
    angle it writes is the given one taken through
    [* math.pi / 180.0] and [* 180 / math.pi], which need not be the given
    one: the default camera, built with 60 degrees, writes
    59.99999999999999.  The new camera has no robot and one empty hit
    column per pixel of width. *)
Theorem camera_init_to_json (width height : Z) (degrees cf sf : float)
    (rg rs : bool) (reach : Z) :
  let c := Camera_init width height degrees cf sf rg rs reach in
  to_json c
  = mkConfig (Some "Camera"%string) (Some width) (Some height) (Some cf)
      (Some sf) (Some rg) (Some rs)
      (Some (degrees * math_pi / 180 * 180 / math_pi)%float) (Some reach)
  /\ robot c = None
  /\ hits c = map (fun _ => []) (range width)
  /\ k_angle (to_json Camera_default) = Some 0x1.dffffffffffffp+5%float
  /\ PrimFloat.eqb 0x1.dffffffffffffp+5 60 = false.
Proof.
  cbv zeta. split; [reflexivity |]. split; [reflexivity |].
  split; [reflexivity |].
  split; vm_compute; reflexivity.
Qed.

End Configuration.

(** ** The robot registry *)

Section WorldProperties.

Import Worlds.

Context {env : Environment}.

Lemma contains_In (l : list nat) (id : nat) :
  contains l id = true <-> In id l.
Proof.
  unfold contains. rewrite existsb_exists. split.
  - intros [k [Hk E]]. apply Nat.eqb_eq in E. subst k. exact Hk.
  - intros H. exists id. split; [exact H | apply Nat.eqb_refl].
Qed.

(** A robot that is not yet registered is appended to the robot list, and
    a wall made of its bounding lines is appended to the walls, before the
    world is updated. *)
Lemma add_robot_new (st : State) (robot : nat) :
  ~ In robot (_robots (self st)) ->
  exists st' : State,
    add_robot st robot = update st'
    /\ _robots (self st') = _robots (self st) ++ [robot]
    /\ (exists wall : Wall,
          walls (self st') = walls (self st) ++ [wall]
          /\ wall_robot wall = Some robot)
    /\ stdout st' = stdout st.
Proof.
  intros Hnew. unfold add_robot.
  replace (contains (_robots (self st)) robot) with false
    by (symmetry; apply not_true_is_false; rewrite contains_In; exact Hnew).
  cbn [negb]. eexists. split; [reflexivity |].
  destruct (Qeq_bool (x (objects st robot)) 0);
    cbn [next_random set_object set_self objects self stdout drawn
         _robots walls];
    rewrite ?Nat.eqb_refl;
    match goal with
    | |- context [Qeq_bool ?v 0] => destruct (Qeq_bool v 0)
    end;
    cbn [next_random set_object set_self objects self stdout drawn
         _robots walls];
    (split; [reflexivity |]; split; [| reflexivity];
     eexists; split; reflexivity).
Qed.

(** C8.  Adding a robot that is already in the world's robot list changes
    neither the robot list nor the walls nor any robot: the call only
    prints that the same robot cannot be added twice, and returns. *)
Theorem add_robot_twice (st : State) (robot : nat) :
  In robot (_robots (self st)) ->
  add_robot st robot
  = print st "Can't add the same robot to a world more than once."
  /\ _robots (self (add_robot st robot)) = _robots (self st)
  /\ walls (self (add_robot st robot)) = walls (self st)
  /\ objects (add_robot st robot) = objects st
  /\ stdout (add_robot st robot)
     = stdout st ++ ["Can't add the same robot to a world more than once."%string].
Proof.
  intros Hin. apply contains_In in Hin.
  assert (E : add_robot st robot
              = print st "Can't add the same robot to a world more than once.").
  { unfold add_robot. rewrite Hin. reflexivity. }
  rewrite E. repeat split.
Qed.

End WorldProperties.



Lemma take_picture_unattached_raises_witness :
  @Cameras.take_picture Scenes.probe Cameras.Camera_default "color"%string
  = Raise AttributeError.
Proof.
  apply (@take_picture_unattached_raises Scenes.probe).
  - reflexivity.
  - left. reflexivity.
Defined.

(** ** The definitions run on the scenes *)

(** C1 at a camera whose [max_range] is 100: every ray is still cast over
    a distance of 1000. *)
Lemma _update_ray_fan_witness :
  exists hs' : list (list Cameras.Hit),
    @Cameras._update Scenes.probe Scenes.small_camera
    = Ok (Cameras.set_hits
            (Cameras.set_time Scenes.small_camera
               (Cameras.w_time Scenes.field)) hs')
    /\ List.length hs' = List.length (Cameras.hits Scenes.small_camera)
    /\ forall i, 0 <= i < fst (Cameras.cameraShape Scenes.small_camera) ->
         nth_error hs' (Z.to_nat i)
         = Some
             (@Cameras.cast_ray Scenes.probe Scenes.viewer
                (Cameras.x Scenes.viewer) (Cameras.y Scenes.viewer)
                (math_pi / 2 - Cameras.direction Scenes.viewer
                 - (inject_Z i
                    / inject_Z (fst (Cameras.cameraShape Scenes.small_camera))
                    * Cameras.angle Scenes.small_camera
                    - Cameras.angle Scenes.small_camera / 2))%Q
                1000).
Proof.
  apply (@_update_ray_fan Scenes.probe Scenes.small_camera Scenes.viewer
           Scenes.field).
  - reflexivity.
  - reflexivity.
  - vm_compute. discriminate.
Defined.

(** The camera of the scene is configured with a range of 100, and the
    probe, which reports how far each ray was allowed to go, answers 1000
    in both columns. *)
Lemma _update_ignores_max_range :
  Cameras.max_range Scenes.small_camera = 100
  /\ match @Cameras._update Scenes.probe Scenes.small_camera with
     | Ok c' =>
         map (map Cameras.distance) (Cameras.hits c') = [[1000%Q]; [1000%Q]]
     | Raise _ => False
     end.
Proof. split; vm_compute; reflexivity. Qed.

(** C2 on the hits as the ray caster lists them, farthest first: robot B
    at 30, the wall at 20, robot A at 10.  The second pass stops at B, so
    A is neither recorded nor drawn: the bottom row of column 0, where the
    band of A belongs, keeps the colour of the wall. *)
Lemma occlusion_scene_loses_robot_A :
  match @Cameras.take_picture Scenes.crowded Scenes.small_camera "color"%string with
  | Ok (c', Some pic, _) =>
      nth_error (Cameras.hits c') 0
      = Some [Scenes.hit_B; Scenes.grey_wall 20; Scenes.hit_A]
      /\ Cameras.find_closest_wall
           [Scenes.hit_B; Scenes.grey_wall 20; Scenes.hit_A]
         = Fin 20
      /\ Cameras.obstacles c' = []
      /\ Cameras.pixel pic 0 7 = (115, 115, 115, 255)
  | _ => False
  end.
Proof. vm_compute. repeat split. Qed.

(** The same three hits listed nearest first: the band of A, one pixel
    high, is drawn in the bottom row, and B is left out. *)
Lemma occlusion_scene_nearest_first :
  match
    @Cameras.take_picture Scenes.crowded_nearest_first Scenes.small_camera
      "color"%string
  with
  | Ok (c', Some pic, _) =>
      map fst (Cameras.obstacles c') = ["A"%string]
      /\ Cameras.pixel pic 0 7 = (242, 0, 0, 255)
  | _ => False
  end.
Proof. vm_compute. repeat split. Qed.

(** C4 as stated fails: in an open field no column has a wall hit, and the
    picture of type "color"%string keeps the transparent black of the new image
    where the sky colour (0, 0, 128, 255) would be. *)
Lemma column_without_wall_is_not_sky :
  match @Cameras.take_picture Scenes.open_field Scenes.small_camera "color"%string with
  | Ok (c', Some pic, _) =>
      nth_error (Cameras.hits c') 0 = Some []
      /\ to_tuple (Color3 0 0 128) = (0, 0, 128, 255)
      /\ Cameras.pixel pic 0 0 = (0, 0, 0, 0)
      /\ Cameras.pixel pic 0 0 <> to_tuple (Color3 0 0 128)
  | _ => False
  end.
Proof. vm_compute. repeat split. discriminate. Qed.

Lemma column_without_wall_is_skipped_witness :
  (forall pic,
      Cameras.wall_column Scenes.camera_facing_A "color"%string None
        100 0 pic = Ok pic)
  /\ (forall pic pic',
        Cameras.wall_pass Scenes.camera_facing_A "color"%string None
          100 pic = Ok pic' ->
        forall j, Cameras.pixel pic' 0 j = Cameras.pixel pic 0 j)
  /\ (forall pic pic',
        Cameras.Image_new (fst (Cameras.cameraShape Scenes.camera_facing_A))
          (snd (Cameras.cameraShape Scenes.camera_facing_A)) = Ok pic ->
        Cameras.wall_pass Scenes.camera_facing_A "color"%string None
          100 pic = Ok pic' ->
        forall j, Cameras.pixel pic' 0 j = (0, 0, 0, 0)).
Proof.
  apply (column_without_wall_is_skipped Scenes.camera_facing_A
           "color"%string None 100 0 [Scenes.hit_A]).
  - reflexivity.
  - intros h [<- | []]. vm_compute. discriminate.
Defined.

(** C8 on a world to which the rover is added twice. *)
Lemma add_robot_twice_witness :
  let st := @Worlds.add_robot Scenes.quiet Scenes.empty_world 7%nat in
  @Worlds.add_robot Scenes.quiet st 7%nat
  = Worlds.print st
      "Can't add the same robot to a world more than once."%string
  /\ Worlds._robots (Worlds.self (@Worlds.add_robot Scenes.quiet st 7%nat))
     = Worlds._robots (Worlds.self st)
  /\ Worlds.walls (Worlds.self (@Worlds.add_robot Scenes.quiet st 7%nat))
     = Worlds.walls (Worlds.self st)
  /\ Worlds.objects (@Worlds.add_robot Scenes.quiet st 7%nat)
     = Worlds.objects st
  /\ Worlds.stdout (@Worlds.add_robot Scenes.quiet st 7%nat)
     = Worlds.stdout st
       ++ ["Can't add the same robot to a world more than once."%string].
Proof.
  apply (@add_robot_twice Scenes.quiet
           (@Worlds.add_robot Scenes.quiet Scenes.empty_world 7%nat) 7%nat).
  vm_compute. left. reflexivity.
Defined.

(* ================================================================== *)
(** * Further properties *)

(** In a hypothesis [x <- m ;; k = Ok _], [m] returned a value [v]. *)
Ltac bound H v :=
  match type of H with
  | bind ?m _ = Ok _ =>
      let E := fresh "E" in
      destruct m as [v |] eqn:E; cbn [bind] in H; [| discriminate H]
  end.

(** ** Colours read from strings *)

Section ColorStrings.

Variable COLORS_get : string -> option string.

Lemma substring_beyond (n m : nat) (s : string) :
  (String.length s <= n)%nat -> substring n m s = EmptyString.
Proof.
  revert s. induction n as [| n IH]; intros s Hs.
  - destruct s; cbn in Hs; [| lia]. destruct m; reflexivity.
  - destruct s as [| c s]; [reflexivity |]. cbn in *. apply IH. lia.
Qed.

Lemma substring_length_le (n m : nat) (s : string) :
  (String.length (substring n m s) <= m)%nat.
Proof.
  revert n s. induction m as [| m IH]; intros n s.
  - revert s. induction n as [| n IHn]; intros s.
    + destruct s; cbn; lia.
    + destruct s as [| c s]; cbn; [lia | apply IHn].
  - revert s. induction n as [| n IHn]; intros s.
    + destruct s as [| c s]; cbn; [lia |].
      specialize (IH 0%nat s). lia.
    + destruct s as [| c s]; cbn; [lia | apply IHn].
Qed.

Lemma int16_digits_raises (s : string) (acc : Z) (u : bool) (e : exn) :
  int16_digits s acc u = Raise e -> e = ValueError.
Proof.
  revert acc u. induction s as [| c s IH]; intros acc u H; cbn in H.
  - destruct u; congruence.
  - destruct (hex_value c); [apply (IH _ _ H) |].
    destruct (Ascii.eqb c "_").
    + destruct u; [congruence | apply (IH _ _ H)].
    + destruct u; [congruence |].
      destruct (is_space c && all_space s); congruence.
Qed.

Lemma int16_raises (s : string) (e : exn) :
  int16 s = Raise e -> e = ValueError.
Proof.
  unfold int16.
  destruct (match lstrip s with
            | EmptyString => (false, lstrip s)
            | String c s' =>
                if Ascii.eqb c "+" then (false, s')
                else if Ascii.eqb c "-" then (true, s')
                else (false, lstrip s)
            end) as [negative body].
  cbv zeta.
  match goal with
  | |- match ?t with _ => _ end = _ -> _ => destruct t as [| c0 t0]
  end; [congruence |].
  destruct (hex_value c0); [| congruence].
  intros H.
  destruct (int16_digits (String c0 t0) 0 false) as [n |] eqn:E;
    cbn [bind] in H; [discriminate |].
  injection H as <-. exact (int16_digits_raises _ _ _ _ E).
Qed.

(** Every character is one of the 256 code points. *)
Lemma In_all_ascii (c : ascii) : In c all_ascii.
Proof.
  unfold all_ascii. apply in_map_iff. exists (nat_of_ascii c).
  split; [apply ascii_nat_embedding |].
  apply in_seq. pose proof (nat_ascii_bounded c). lia.
Qed.

(** A field of at most two characters that [int] accepts is a number
    from -15 (for "-F") to 255 (for "FF"). *)
Lemma int16_byte (s : string) (n : Z) :
  (String.length s <= 2)%nat -> int16 s = Ok n -> -15 <= n <= 255.
Proof.
  intros Hlen H.
  pose (small := fun r : result Z =>
                   match r with
                   | Ok m => (-15 <=? m) && (m <=? 255)
                   | Raise _ => true
                   end).
  assert (Hall :
    forallb
      (fun c1 =>
         small (int16 (String c1 EmptyString))
         && forallb
              (fun c2 => small (int16 (String c1 (String c2 EmptyString))))
              all_ascii)
      all_ascii = true) by (vm_compute; reflexivity).
  rewrite forallb_forall in Hall.
  destruct s as [| c1 [| c2 [| c3 s]]]; cbn in Hlen; try lia.
  - discriminate.
  - specialize (Hall c1 (In_all_ascii c1)).
    apply andb_prop in Hall. destruct Hall as [H1 _].
    rewrite H in H1. cbn [small] in H1. lia.
  - specialize (Hall c1 (In_all_ascii c1)).
    apply andb_prop in Hall. destruct Hall as [_ H2].
    rewrite forallb_forall in H2.
    specialize (H2 c2 (In_all_ascii c2)).
    rewrite H in H2. cbn [small] in H2. lia.
Qed.

Lemma hex_to_rgba_bytes (s : string) (r g b a : Z) :
  hex_to_rgba s = Ok (r, g, b, a) ->
  -15 <= r <= 255 /\ -15 <= g <= 255 /\ -15 <= b <= 255 /\ -15 <= a <= 255.
Proof.
  unfold hex_to_rgba, slice. intros H.
  destruct (int16 (substring 1 (3 - 1) s)) as [r' |] eqn:Er;
    cbn [bind] in H; [| discriminate].
  destruct (int16 (substring 3 (5 - 3) s)) as [g' |] eqn:Eg;
    cbn [bind] in H; [| discriminate].
  destruct (int16 (substring 5 (7 - 5) s)) as [b' |] eqn:Eb;
    cbn [bind] in H; [| discriminate].
  match type of H with
  | bind (int16 ?f) _ = _ =>
      assert (Hf : (String.length f <= 2)%nat)
        by (destruct (7 <? String.length s)%nat;
            [apply (substring_length_le 7 2 s) | cbn; lia]);
      destruct (int16 f) as [a' |] eqn:Ea; cbn [bind] in H; [| discriminate]
  end.
  injection H as <- <- <- <-.
  split; [exact (int16_byte _ _ (substring_length_le 1 2 s) Er) |].
  split; [exact (int16_byte _ _ (substring_length_le 3 2 s) Eg) |].
  split; [exact (int16_byte _ _ (substring_length_le 5 2 s) Eb) |].
  exact (int16_byte _ _ Hf Ea).
Qed.

(** X1.  A hexcode of at most five characters is refused with
    [ValueError], because its blue field is empty; a hexcode of at most
    seven characters that is accepted has no alpha field and is opaque
    (alpha 255). *)
Theorem hex_to_rgba_by_length (s : string) :
  ((String.length s <= 5)%nat -> hex_to_rgba s = Raise ValueError)
  /\ ((String.length s <= 7)%nat ->
      forall r g b a, hex_to_rgba s = Ok (r, g, b, a) -> a = 255).
Proof.
  split.
  - intros Hlen. unfold hex_to_rgba, slice.
    rewrite (substring_beyond 5 (7 - 5) s Hlen).
    destruct (int16 (substring 1 (3 - 1) s)) as [r |] eqn:Er; cbn [bind].
    2: { apply int16_raises in Er. now subst. }
    destruct (int16 (substring 3 (5 - 3) s)) as [g |] eqn:Eg; cbn [bind].
    2: { apply int16_raises in Eg. now subst. }
    reflexivity.
  - intros Hlen r g b a. unfold hex_to_rgba.
    replace (7 <? String.length s)%nat with false
      by (symmetry; apply Nat.ltb_ge; exact Hlen).
    intros H.
    destruct (int16 (slice 1 3 s)); cbn [bind] in H; [| discriminate].
    destruct (int16 (slice 3 5 s)); cbn [bind] in H; [| discriminate].
    destruct (int16 (slice 5 7 s)); cbn [bind] in H; [| discriminate].
    change (int16 "FF") with (Ok 255) in H. cbn [bind] in H.
    injection H as _ _ _ <-. reflexivity.
Qed.

(** X2.  A colour name that the table does not know gives, without any
    error, the transparent black (0, 0, 0, 0) carrying that name; its
    [str()] is the name and its hexcode is "#00000000". *)
Theorem unknown_color_name (n : string) :
  startswith_hash n = false ->
  COLORS_get n = None ->
  exists c : Color,
    Color_init COLORS_get (OfStr n) None None None = Ok c
    /\ c = mkColor (Some n) 0 0 0 0
    /\ Color_str c = n
    /\ to_hexcode c = "#00000000"%string.
Proof.
  intros Hhash Hget. eexists. split.
  - unfold Color_init. rewrite Hhash, Hget. reflexivity.
  - repeat split.
Qed.

Lemma color_of_own_str (s : string) (c : Color) :
  Color_init COLORS_get (OfStr s) None None None = Ok c ->
  Color_init COLORS_get (OfStr (Color_str c)) None None None = Ok c.
Proof.
  intros H. unfold Color_init in H.
  destruct (startswith_hash s) eqn:Ehash.
  - destruct (hex_to_rgba s) as [[[[r g] b] a] |] eqn:Ehex;
      cbn [bind] in H; [| discriminate].
    injection H as <-.
    destruct (hex_to_rgba_bytes s r g b a Ehex) as (Hr & Hg & Hb & Ha).
    unfold Color_str, fill_channels. cbn [name].
    unfold to_hexcode, to_tuple. cbn [red green blue alpha].
    rewrite !int_of_inject_Z.
    destruct (format_02X_byte r Hr) as (r1 & r2 & Er & Pr).
    destruct (format_02X_byte g Hg) as (g1 & g2 & Eg & Pg).
    destruct (format_02X_byte b Hb) as (b1 & b2 & Eb & Pb).
    destruct (format_02X_byte a Ha) as (a1 & a2 & Ea & Pa).
    rewrite Er, Eg, Eb, Ea.
    cbn [String.append Color_init startswith_hash].
    replace (Ascii.eqb "#" "#") with true by reflexivity.
    rewrite (hex_to_rgba_of_bytes _ _ _ _ _ _ _ _ _ _ _ _ Pr Pg Pb Pa).
    reflexivity.
  - destruct (hex_to_rgba _) as [[[[r g] b] a] |] eqn:Ehex;
      cbn [bind] in H; [| discriminate].
    injection H as <-.
    unfold Color_str, fill_channels. cbn [name].
    unfold Color_init. rewrite Ehash, Ehex. reflexivity.
Qed.

(** X3.  Every colour built from a string, name or hexcode, is built again
    from its own [str()]: [Color(str(c))] has the name and the four
    channels of [c].  This is the path a wall colour takes through the
    world's configuration. *)
Theorem color_str_roundtrip (s : string) (c : Color) :
  Color_init COLORS_get (OfStr s) None None None = Ok c ->
  Color_init COLORS_get (OfStr (Color_str c)) None None None = Ok c.
Proof. apply color_of_own_str. Qed.

End ColorStrings.

(** ** The camera's hit buffer *)

Section HitBuffer.

Import Cameras.

Context {collab : Collaborators}.

Lemma for_each_app {A S : Type} (l1 l2 : list A)
    (body : A -> S -> result S) (s : S) :
  for_each (l1 ++ l2) body s
  = bind (for_each l1 body s) (for_each l2 body).
Proof.
  revert s. induction l1 as [| a l1 IH]; intros s; cbn; [reflexivity |].
  destruct (body a s); cbn; [apply IH | reflexivity].
Qed.

Lemma range_split (n : nat) (k : Z) :
  Z.of_nat n < k ->
  range k
  = range (Z.of_nat n)
    ++ Z.of_nat n :: map Z.of_nat (seq (S n) (Z.to_nat k - S n)).
Proof.
  intros Hnk. unfold range. rewrite Nat2Z.id.
  replace (Z.to_nat k) with (n + S (Z.to_nat k - S n))%nat at 1 by lia.
  rewrite seq_app, map_app. cbn [seq map Nat.add]. reflexivity.
Qed.

Lemma setitem_beyond {A : Type} (l : list A) (v : A) :
  setitem l (Z.of_nat (List.length l)) v = Raise IndexError.
Proof.
  unfold setitem.
  replace (Z.of_nat (List.length l) <? 0) with false
    by (symmetry; apply Z.ltb_ge; lia).
  rewrite Z.ltb_irrefl, andb_false_r. reflexivity.
Qed.

(** X4.  When the configured width exceeds the number of columns of the
    hit buffer (as after [from_json] with a larger "width" and no
    "angle", which does not reset the buffer), [_update] on an attached
    camera fails with [IndexError] at the first column that has no slot. *)
Theorem _update_stale_buffer (c : Camera) (r : Robot) (w : World) :
  robot c = Some r ->
  world r = Some w ->
  Z.of_nat (List.length (hits c)) < fst (cameraShape c) ->
  _update c = Raise IndexError.
Proof.
  intros Hr Hw Hlen. unfold _update, the_world. unfold the_robot at 1.
  rewrite Hr. cbn [bind]. rewrite Hw. cbn [bind].
  set (c0 := set_time c (w_time w)).
  change (cameraShape c0) with (cameraShape c).
  set (n := List.length (hits c)) in *.
  rewrite (range_split n (fst (cameraShape c))) by lia.
  rewrite for_each_app.
  destruct (update_loop c0 r (range (Z.of_nat n)) Hr (hits c0))
    as (hs' & Hrun & Hlen' & _).
  { intros i Hi. apply range_In in Hi.
    change (cameraShape c0) with (cameraShape c).
    change (hits c0) with (hits c). fold n. lia. }
  rewrite set_hits_hits in Hrun. rewrite Hrun. cbn [bind for_each].
  change (hits c0) with (hits c) in Hlen'. fold n in Hlen'.
  unfold column_angle, the_robot.
  change (cameraShape (set_hits c0 hs')) with (cameraShape c).
  change (robot (set_hits c0 hs')) with (robot c).
  change (hits (set_hits c0 hs')) with hs'.
  rewrite div_positive by (apply inject_Z_positive; lia).
  rewrite Hr. cbn [bind].
  rewrite <- Hlen'. rewrite setitem_beyond. reflexivity.
Qed.

(** X5.  [reset], and so [set_size] and [set_fov], leave a buffer of
    exactly one empty column per pixel of width; on an attached camera
    the next [_update] therefore succeeds and keeps that many columns. *)
Theorem reset_then_update (c : Camera) (r : Robot) (w : World)
    (width height : Z) (degrees : Q) :
  robot c = Some r ->
  world r = Some w ->
  hits (set_size c width height) = map (fun _ => []) (range width)
  /\ hits (set_fov c degrees)
     = map (fun _ => []) (range (fst (cameraShape c)))
  /\ (exists c', _update (set_size c width height) = Ok c'
                 /\ List.length (hits c') = Z.to_nat width)
  /\ (exists c', _update (set_fov c degrees) = Ok c'
                 /\ List.length (hits c')
                    = Z.to_nat (fst (cameraShape c))).
Proof.
  intros Hr Hw.
  assert (Hgen : forall c1 : Camera,
            robot c1 = Some r ->
            hits c1 = map (fun _ => []) (range (fst (cameraShape c1))) ->
            exists c', _update c1 = Ok c'
                       /\ List.length (hits c')
                          = Z.to_nat (fst (cameraShape c1))).
  { intros c1 Hr1 Hh. unfold _update, the_world. unfold the_robot at 1.
    rewrite Hr1. cbn [bind]. rewrite Hw. cbn [bind].
    set (c0 := set_time c1 (w_time w)).
    assert (Hn : List.length (hits c1) = Z.to_nat (fst (cameraShape c1))).
    { rewrite Hh. unfold range. rewrite !length_map, length_seq.
      reflexivity. }
    destruct (update_loop c0 r (range (fst (cameraShape c0))) Hr1 (hits c0))
      as (hs' & Hrun & Hlen' & _).
    { intros i Hi. apply range_In in Hi.
      change (cameraShape c0) with (cameraShape c1) in *.
      change (hits c0) with (hits c1). lia. }
    rewrite set_hits_hits in Hrun. rewrite Hrun.
    eexists. split; [reflexivity |].
    change (hits (set_hits c0 hs')) with hs'.
    rewrite Hlen'. exact Hn. }
  split; [reflexivity |]. split; [reflexivity |]. split.
  - apply (Hgen (set_size c width height)); [exact Hr | reflexivity].
  - apply (Hgen (set_fov c degrees)); [exact Hr | reflexivity].
Qed.

End HitBuffer.

(** ** The camera's configuration and obstacle table *)

Section CameraTables.

Import Cameras CameraMore.

(** *** Order on extended floats *)

Lemma ltb_irrefl (a : Q) : ltb a a = false.
Proof. apply ltb_ge. apply Qle_refl. Qed.

Lemma ext_le_refl (a : ext) : ext_le a a.
Proof. destruct a; cbn; [reflexivity | apply ltb_irrefl | reflexivity]. Qed.

Lemma ext_le_trans (a b c : ext) : ext_le a b -> ext_le b c -> ext_le a c.
Proof.
  unfold ext_le. destruct a, b, c; cbn; try congruence.
  rewrite !ltb_ge. intros H1 H2. apply (Qle_trans _ _ _ H1 H2).
Qed.

Lemma ext_max_l (a b : ext) : ext_le a (ext_max a b).
Proof.
  unfold ext_max, ext_le. destruct (ext_ltb a b) eqn:E.
  - destruct a, b; cbn in *; try congruence.
    apply ltb_lt in E. apply ltb_ge. apply Qlt_le_weak. exact E.
  - apply ext_le_refl.
Qed.

Lemma ext_max_r (a b : ext) : ext_le b (ext_max a b).
Proof.
  unfold ext_max, ext_le. destruct (ext_ltb a b) eqn:E.
  - apply ext_le_refl.
  - exact E.
Qed.

Lemma ext_min_l (a b : ext) : ext_le (ext_min a b) a.
Proof.
  unfold ext_min, ext_le. destruct (ext_ltb b a) eqn:E.
  - destruct a, b; cbn in *; try congruence.
    apply ltb_lt in E. apply ltb_ge. apply Qlt_le_weak. exact E.
  - apply ext_le_refl.
Qed.

Lemma ext_min_r (a b : ext) : ext_le (ext_min a b) b.
Proof.
  unfold ext_min, ext_le. destruct (ext_ltb b a) eqn:E.
  - apply ext_le_refl.
  - exact E.
Qed.

(** *** The obstacle table *)

Lemma lookup_has_key (k : string) (d : list (string * Obstacle)) :
  has_key k d = match lookup k d with Some _ => true | None => false end.
Proof.
  induction d as [| [k' v] d IH]; cbn; [reflexivity |].
  destruct (String.eqb k k'); cbn; [reflexivity | exact IH].
Qed.

Lemma lookup_update_key (k k0 : string) (f : Obstacle -> Obstacle)
    (d : list (string * Obstacle)) :
  lookup k0 (update_key k f d)
  = if String.eqb k0 k
    then match lookup k d with Some o => Some (f o) | None => None end
    else lookup k0 d.
Proof.
  induction d as [| [k' v] d IH]; cbn.
  - destruct (String.eqb k0 k); reflexivity.
  - destruct (String.eqb k k') eqn:E; cbn.
    + apply String.eqb_eq in E. subst k'.
      destruct (String.eqb k0 k); reflexivity.
    + rewrite IH. destruct (String.eqb k0 k) eqn:E0.
      * apply String.eqb_eq in E0. subst k0. rewrite E. reflexivity.
      * reflexivity.
Qed.

Lemma lookup_app_new (k k0 : string) (v : Obstacle)
    (d : list (string * Obstacle)) :
  lookup k0 (d ++ [(k, v)])
  = match lookup k0 d with
    | Some o => Some o
    | None => if String.eqb k0 k then Some v else None
    end.
Proof.
  induction d as [| [k' v'] d IH]; cbn; [reflexivity |].
  destruct (String.eqb k0 k'); [reflexivity | exact IH].
Qed.

(** X7.  [record_obstacle] never fails for a robot; afterwards the table
    has an entry under the robot's name whose box contains the column [x]
    and both rows [y1] and [y2]; a box that was there before is contained
    in the new one, and the entries of all other names are as before. *)
Theorem record_obstacle_box (obstacles : list (string * Obstacle))
    (robot : Robot) (x y1 y2 : Z) :
  exists (obstacles' : list (string * Obstacle)) (o' : Obstacle),
    record_obstacle obstacles (Some robot) x y1 y2 = Ok obstacles'
    /\ lookup (r_name robot) obstacles' = Some o'
    /\ (ext_le (min_x o') (Fin (inject_Z x))
        /\ ext_le (Fin (inject_Z x)) (max_x o')
        /\ ext_le (min_y o') (Fin (inject_Z y1))
        /\ ext_le (Fin (inject_Z y1)) (max_y o')
        /\ ext_le (min_y o') (Fin (inject_Z y2))
        /\ ext_le (Fin (inject_Z y2)) (max_y o'))
    /\ (forall o, lookup (r_name robot) obstacles = Some o ->
          o_robot o' = o_robot o
          /\ ext_le (min_x o') (min_x o) /\ ext_le (max_x o) (max_x o')
          /\ ext_le (min_y o') (min_y o) /\ ext_le (max_y o) (max_y o'))
    /\ (forall k, k <> r_name robot ->
          lookup k obstacles' = lookup k obstacles).
Proof.
  unfold record_obstacle.
  set (grow := fun o : Obstacle =>
                 mkObstacle (o_robot o)
                   (ext_max (max_x o) (Fin (inject_Z x)))
                   (ext_max (ext_max (max_y o) (Fin (inject_Z y1)))
                      (Fin (inject_Z y2)))
                   (ext_min (min_x o) (Fin (inject_Z x)))
                   (ext_min (ext_min (min_y o) (Fin (inject_Z y1)))
                      (Fin (inject_Z y2)))).
  assert (Hgrow : forall o,
            (ext_le (min_x (grow o)) (Fin (inject_Z x))
             /\ ext_le (Fin (inject_Z x)) (max_x (grow o))
             /\ ext_le (min_y (grow o)) (Fin (inject_Z y1))
             /\ ext_le (Fin (inject_Z y1)) (max_y (grow o))
             /\ ext_le (min_y (grow o)) (Fin (inject_Z y2))
             /\ ext_le (Fin (inject_Z y2)) (max_y (grow o)))
            /\ o_robot (grow o) = o_robot o
            /\ ext_le (min_x (grow o)) (min_x o)
            /\ ext_le (max_x o) (max_x (grow o))
            /\ ext_le (min_y (grow o)) (min_y o)
            /\ ext_le (max_y o) (max_y (grow o))).
  { intros o. unfold grow. cbn [min_x max_x min_y max_y o_robot].
    repeat split;
      first [ apply ext_min_r | apply ext_max_r | apply ext_min_l
            | apply ext_max_l
            | eapply ext_le_trans; [apply ext_min_l | apply ext_min_r]
            | eapply ext_le_trans; [apply ext_max_r | apply ext_max_l]
            | eapply ext_le_trans; [apply ext_min_l | apply ext_min_l]
            | eapply ext_le_trans; [apply ext_max_l | apply ext_max_l] ]. }
  rewrite lookup_has_key.
  destruct (lookup (r_name robot) obstacles) as [o |] eqn:E.
  - exists (update_key (r_name robot) grow obstacles), (grow o).
    split; [reflexivity |]. split.
    { rewrite lookup_update_key, String.eqb_refl, E. reflexivity. }
    split; [apply Hgrow |]. split.
    { intros o0 H0. injection H0 as <-. apply Hgrow. }
    intros k Hk. rewrite lookup_update_key.
    replace (String.eqb k (r_name robot)) with false
      by (symmetry; apply String.eqb_neq; exact Hk).
    reflexivity.
  - set (fresh := mkObstacle robot NegInf NegInf PosInf PosInf).
    exists (update_key (r_name robot) grow
              (obstacles ++ [(r_name robot, fresh)])), (grow fresh).
    split; [reflexivity |]. split.
    { rewrite lookup_update_key, String.eqb_refl, lookup_app_new, E,
        String.eqb_refl. reflexivity. }
    split; [apply Hgrow |]. split; [intros o0 H0; discriminate |].
    intros k Hk. rewrite lookup_update_key.
    replace (String.eqb k (r_name robot)) with false
      by (symmetry; apply String.eqb_neq; exact Hk).
    rewrite lookup_app_new.
    replace (String.eqb k (r_name robot)) with false
      by (symmetry; apply String.eqb_neq; exact Hk).
    destruct (lookup k obstacles); reflexivity.
Qed.

End CameraTables.

(** ** Occlusion *)

Section Occlusion.

Import Cameras CameraMore.

Context {collab : Collaborators}.

Lemma first_wall_cases (l : list Hit) :
  (first_wall l = PosInf /\ Forall (fun h => (hit_height h < 1)%Q) l)
  \/ (exists h, In h l /\ (1 <= hit_height h)%Q
                /\ first_wall l = Fin (distance h)).
Proof.
  induction l as [| h l IH]; cbn.
  - left. split; [reflexivity | constructor].
  - destruct (ltb (hit_height h) 1) eqn:E.
    + apply ltb_lt in E. destruct IH as [[H1 H2] | [h' (Hin & Hh & Hd)]].
      * left. split; [exact H1 | constructor; assumption].
      * right. exists h'. repeat split; [right; exact Hin | exact Hh
                                          | exact Hd].
    + apply ltb_ge in E. right. exists h.
      repeat split; [left; reflexivity | exact E].
Qed.

(** X8.  [find_closest_wall] answers infinity exactly when every hit of
    the list is lower than 1; any other answer is the distance of a hit
    of the list whose height is at least 1. *)
Theorem find_closest_wall_infinite (hits : list Hit) :
  (find_closest_wall hits = PosInf
   <-> Forall (fun h => (hit_height h < 1)%Q) hits)
  /\ (forall d, find_closest_wall hits = Fin d ->
        exists h, In h hits /\ (1 <= hit_height h)%Q /\ distance h = d)
  /\ find_closest_wall hits <> NegInf.
Proof.
  unfold find_closest_wall.
  destruct (first_wall_cases (rev hits)) as [[H1 H2] | [h (Hin & Hh & Hd)]].
  - rewrite H1. split; [| split; [intros d H; discriminate | discriminate]].
    split; [intros _ | reflexivity].
    apply Forall_rev in H2. rewrite rev_involutive in H2. exact H2.
  - rewrite Hd. apply in_rev in Hin.
    split; [| split; [| discriminate]].
    + split; [discriminate |]. intros Hall.
      rewrite Forall_forall in Hall. specialize (Hall h Hin).
      exfalso. apply (Qlt_not_le _ _ Hall Hh).
    + intros d H. injection H as <-. exists h. repeat split; assumption.
Qed.

Lemma has_key_update_key (k k0 : string) (f : Obstacle -> Obstacle)
    (d : list (string * Obstacle)) :
  has_key k0 (update_key k f d) = has_key k0 d.
Proof.
  induction d as [| [k' v] d IH]; cbn; [reflexivity |].
  destruct (String.eqb k k'); cbn; [reflexivity |].
  rewrite IH. reflexivity.
Qed.

Lemma has_key_app (k0 : string) (d1 d2 : list (string * Obstacle)) :
  has_key k0 (d1 ++ d2) = has_key k0 d1 || has_key k0 d2.
Proof.
  induction d1 as [| [k' v] d1 IH]; cbn; [reflexivity |].
  rewrite IH, orb_assoc. reflexivity.
Qed.

Lemma record_obstacle_keys (obstacles obstacles' : list (string * Obstacle))
    (robot : option Robot) (x y1 y2 : Z) (k : string) :
  record_obstacle obstacles robot x y1 y2 = Ok obstacles' ->
  exists r, robot = Some r
            /\ has_key k obstacles'
               = has_key k obstacles || String.eqb k (r_name r).
Proof.
  unfold record_obstacle. destruct robot as [r |]; [| discriminate].
  intros H. injection H as <-. exists r. split; [reflexivity |].
  rewrite has_key_update_key.
  destruct (has_key (r_name r) obstacles) eqn:E.
  - destruct (String.eqb k (r_name r)) eqn:Ek.
    + apply String.eqb_eq in Ek. subst k. rewrite E. reflexivity.
    + rewrite orb_false_r. reflexivity.
  - rewrite has_key_app. cbn [has_key]. rewrite orb_false_r. reflexivity.
Qed.

(** X9.  In the inner loop of the second pass, the hits up to the first
    one that lies behind the closest wall are all recorded, and nothing
    else is: when the loop finishes, the robots in the obstacle table are
    those that were there plus the robots of these hits, whatever comes
    after the first occluded hit. *)
Theorem obstacle_hits_records_prefix (c : Camera) (type : string) (size : Q)
    (i : Z) (closest_wall_dist : ext) (admitted rest : list Hit)
    (st st' : list (string * Obstacle) * Picture) :
  obstacle_hits c type size i closest_wall_dist (admitted ++ rest) st
  = Ok st' ->
  Forall (fun h => ext_ltb closest_wall_dist (Fin (distance h)) = false)
    admitted ->
  rest = []
  \/ (exists h t, rest = h :: t
                  /\ ext_ltb closest_wall_dist (Fin (distance h)) = true) ->
  forall k,
    has_key k (fst st') = true
    <-> has_key k (fst st) = true
        \/ exists h r, In h admitted /\ hit_robot h = Some r /\ r_name r = k.
Proof.
  revert st. induction admitted as [| h admitted IH]; intros st Hrun Hadm Hrest k.
  - cbn [app] in Hrun.
    assert (E : st' = st).
    { destruct Hrest as [-> | (h & t & -> & Hb)].
      - cbn in Hrun. congruence.
      - rewrite obstacle_hits_break in Hrun by exact Hb. congruence. }
    subst st'. split; [intros H; left; exact H |].
    intros [H | (h & r & [] & _)]. exact H.
  - inversion Hadm as [| ? ? Hh Hadm']; subst.
    cbn [app obstacle_hits] in Hrun. rewrite Hh in Hrun.
    bound Hrun distance_ratio. bound Hrun s. bound Hrun sc.
    destruct (shade type h distance_ratio sc) as [[r g] b].
    bound Hrun obstacles1. bound Hrun robot1. bound Hrun pic1.
    destruct (record_obstacle_keys _ _ _ _ _ _ k E2) as (r1 & Hr1 & Hkeys).
    rewrite (IH _ Hrun Hadm' Hrest k). cbn [fst]. rewrite Hkeys.
    rewrite orb_true_iff, String.eqb_eq. split.
    + intros [[H | H] | (h' & r' & Hin & Hr' & Hk)].
      * left. exact H.
      * right. exists h, r1. repeat split; [left; reflexivity | exact Hr1
                                             | symmetry; exact H].
      * right. exists h', r'. repeat split; [right; exact Hin | exact Hr'
                                              | exact Hk].
    + intros [H | (h' & r' & [<- | Hin] & Hr' & Hk)].
      * left. left. exact H.
      * left. right. rewrite Hr1 in Hr'. injection Hr' as <-.
        symmetry. exact Hk.
      * right. exists h', r'. repeat split; assumption.
Qed.

End Occlusion.

(** ** The point cloud *)

Section PointCloud.

Import Cameras CameraMore.

Context {collab : Collaborators}.

(** X10.  [get_point_cloud] has no guard of its own: without Pillow
    [take_picture] returns [None], whose [load] does not exist, and on a
    camera without robot or world [take_picture] itself fails; in all
    three cases the call raises [AttributeError]. *)
Theorem get_point_cloud_raises (c : Camera) :
  PIL_available = false
  \/ robot c = None
  \/ (exists r, robot c = Some r /\ world r = None) ->
  get_point_cloud c = Raise AttributeError.
Proof.
  intros H. unfold get_point_cloud, take_picture.
  destruct PIL_available eqn:Epil; cbn [negb].
  - destruct H as [H | H]; [discriminate |].
    unfold _update, the_world, the_robot.
    destruct H as [H | [r [H Hw]]]; rewrite H; cbn [bind]; [| rewrite Hw];
      reflexivity.
  - reflexivity.
Qed.

Lemma cloud_point_invariant (c : Camera) (depth_pixels color_pixels : Picture)
    (P : list Z -> Prop) (x y : Z) (points points' : list (list Z)) :
  (forall d r g b, d <> 255 ->
     P [fst (cameraShape c) - x - 1; snd (cameraShape c) - y - 1;
        d; r; g; b]) ->
  Forall P points ->
  cloud_point c depth_pixels color_pixels x y points = Ok points' ->
  Forall P points'.
Proof.
  intros HP Hall H. unfold cloud_point in H.
  bound H dist_color. bound H color.
  destruct dist_color as [[[d d1] d2] d3]. destruct color as [[[r g] b] a].
  destruct (d =? 255) eqn:Ed; cbn [negb] in H; injection H as <-.
  - exact Hall.
  - apply Forall_app. split; [exact Hall |].
    constructor; [| constructor]. apply HP. apply Z.eqb_neq. exact Ed.
Qed.

(** X11.  Every point that [get_point_cloud] returns is a list
    [px, py, d, r, g, b] whose position lies inside the image,
    0 <= px < width and 0 <= py < height, and whose depth value [d] is not
    255: pixels of depth 255 are left out. *)
Theorem get_point_cloud_points (c c' : Camera) (points : list (list Z))
    (out : list string) :
  get_point_cloud c = Ok (c', points, out) ->
  Forall
    (fun point =>
       exists px py d r g b,
         point = [px; py; d; r; g; b]
         /\ 0 <= px < fst (cameraShape c')
         /\ 0 <= py < snd (cameraShape c')
         /\ d <> 255)
    points.
Proof.
  intros H. unfold get_point_cloud in H.
  bound H shot1. destruct shot1 as [[c1 depth_pic] out1].
  bound H depth_pixels.
  bound H shot2. destruct shot2 as [[c2 color_pic] out2].
  bound H color_pixels.
  bound H pts. injection H as <- <- <-.
  match goal with
  | Hloop : for_each _ _ [] = Ok pts |- _ => revert Hloop
  end.
  apply (for_each_invariant
           (Forall
              (fun point =>
                 exists px py d r g b,
                   point = [px; py; d; r; g; b]
                   /\ 0 <= px < fst (cameraShape c2)
                   /\ 0 <= py < snd (cameraShape c2)
                   /\ d <> 255)));
    [| constructor].
  intros x s s' Hx Hs.
  apply for_each_invariant; [| exact Hs].
  intros y t t' Hy Ht Hbody.
  apply range_In in Hx. apply range_In in Hy.
  apply (cloud_point_invariant c2 depth_pixels color_pixels _ x y t t');
    [| exact Ht | exact Hbody].
  intros d r g b Hd.
  exists (fst (cameraShape c2) - x - 1), (snd (cameraShape c2) - y - 1),
    d, r, g, b.
  repeat split; lia.
Qed.

End PointCloud.

(** ** Walls of the world *)

Section Walls.

Import Worlds WorldWalls.

Context {env : Environment}.

Variable COLORS_get : string -> option string.

Lemma filter_all {A : Type} (f : A -> bool) (l : list A) :
  Forall (fun a => f a = true) l -> filter f l = l.
Proof.
  induction 1 as [| a l Ha _ IH]; cbn; [reflexivity |].
  rewrite Ha, IH. reflexivity.
Qed.

Lemma filter_idempotent {A : Type} (f : A -> bool) (l : list A) :
  filter f (filter f l) = filter f l.
Proof.
  induction l as [| a l IH]; cbn; [reflexivity |].
  destruct (f a) eqn:E; cbn; [rewrite E, IH |]; auto.
Qed.

(** X12.  [add_boundary_walls] appends four walls of one line each (or
    nothing when the flag is off) and [clear_boundary_walls] removes
    exactly the walls of at most one line: clearing after adding gives back
    a world all of whose walls have several lines, clearing twice is
    clearing once, and every wall that survives has at least two lines. *)
Theorem clear_after_add_boundary_walls (boundary_wall : bool)
    (boundary_wall_color : Color) (w : World) :
  (Forall (fun wall => (1 < List.length (lines wall))%nat) (walls w) ->
   clear_boundary_walls
     (add_boundary_walls boundary_wall boundary_wall_color w) = w)
  /\ clear_boundary_walls (clear_boundary_walls w) = clear_boundary_walls w
  /\ Forall (fun wall => (1 < List.length (lines wall))%nat)
       (walls (clear_boundary_walls w))
  /\ List.length
       (walls (add_boundary_walls boundary_wall boundary_wall_color w))
     = (List.length (walls w) + (if boundary_wall then 4 else 0))%nat.
Proof.
  destruct w as [id wd ht robots ws]. cbn [walls].
  split; [| split; [| split]].
  - intros Hall.
    assert (Hkeep : filter (fun wall => (1 <? List.length (lines wall))%nat) ws
                    = ws).
    { apply filter_all. revert Hall. apply Forall_impl.
      intros wall H. apply Nat.ltb_lt. exact H. }
    unfold clear_boundary_walls, add_boundary_walls.
    destruct boundary_wall; cbn [world_id width height _robots walls].
    + rewrite filter_app, Hkeep. cbn. rewrite app_nil_r. reflexivity.
    + rewrite Hkeep. reflexivity.
  - unfold clear_boundary_walls. cbn [world_id width height _robots walls].
    rewrite filter_idempotent. reflexivity.
  - unfold clear_boundary_walls. cbn [walls].
    apply Forall_forall. intros wall Hin. apply filter_In in Hin.
    apply Nat.ltb_lt. apply Hin.
  - unfold add_boundary_walls. destruct boundary_wall; cbn [walls].
    + rewrite length_app. reflexivity.
    + lia.
Qed.

Lemma walls_to_json_app (a b : list Wall) :
  walls_to_json (a ++ b)
  = bind (walls_to_json a)
      (fun ea => bind (walls_to_json b) (fun eb => Ok (ea ++ eb))).
Proof.
  induction a as [| wall a IH]; cbn [app walls_to_json bind].
  - destruct (walls_to_json b); reflexivity.
  - destruct (_ && _).
    + destruct (line_at wall 0); cbn [bind]; [| reflexivity].
      destruct (line_at wall 2); cbn [bind]; [| reflexivity].
      rewrite IH. destruct (walls_to_json a); cbn [bind]; [| reflexivity].
      destruct (walls_to_json b); reflexivity.
    + cbn [bind]. rewrite IH.
      destruct (walls_to_json a); cbn [bind]; [| reflexivity].
      destruct (walls_to_json b); reflexivity.
Qed.

(** X13.  [to_json] writes no entry for a wall that belongs to a robot or
    whose number of lines is not four: robot footprints and the four
    boundary walls never reach the configuration. *)
Theorem walls_to_json_skips (ws : list Wall) (boundary_wall : bool)
    (boundary_wall_color : Color) (w : World) :
  (Forall (fun wall => List.length (lines wall) <> 4%nat
                       \/ wall_robot wall <> None) ws ->
   walls_to_json ws = Ok [])
  /\ walls_to_json
       (walls (add_boundary_walls boundary_wall boundary_wall_color w))
     = walls_to_json (walls w).
Proof.
  assert (Hskip : forall l,
            Forall (fun wall => List.length (lines wall) <> 4%nat
                                \/ wall_robot wall <> None) l ->
            walls_to_json l = Ok []).
  { induction 1 as [| wall l Hw _ IH]; cbn [walls_to_json]; [reflexivity |].
    replace ((List.length (lines wall) =? 4)%nat
             && match wall_robot wall with
                | Some _ => false
                | None => true
                end) with false.
    - cbn [bind]. rewrite IH. reflexivity.
    - symmetry. apply andb_false_iff. destruct Hw as [Hw | Hw].
      + left. apply Nat.eqb_neq. exact Hw.
      + right. destruct (wall_robot wall); [reflexivity | congruence]. }
  split; [apply Hskip |].
  unfold add_boundary_walls. destruct boundary_wall; [| reflexivity].
  cbn [walls]. rewrite walls_to_json_app.
  rewrite (Hskip [_; _; _; _]).
  - destruct (walls_to_json (walls w)); cbn [bind]; [| reflexivity].
    rewrite app_nil_r. reflexivity.
  - repeat (apply Forall_cons; [left; cbn; lia |]). apply Forall_nil.
Qed.

(** X14.  A box added by [add_wall] is written by [to_json] as its colour
    string and its two opposite corners (x1, y1) and (x2, y2), and giving
    that entry back to [add_wall] appends the very same wall: the two
    corners and the colour survive the round trip. *)
Theorem wall_config_roundtrip (color : string) (c : Color)
    (x1 y1 x2 y2 : Q) (st : State) :
  Color_init COLORS_get (OfStr color) None None None = Ok c ->
  let box :=
    mkWall c None
      [mkLine (mkPoint x1 y1) (mkPoint x2 y1);
       mkLine (mkPoint x2 y1) (mkPoint x2 y2);
       mkLine (mkPoint x2 y2) (mkPoint x1 y2);
       mkLine (mkPoint x1 y2) (mkPoint x1 y1)] in
  let entry := mkWallConfig (Color_str c) (x1, y1) (x2, y2) in
  (exists st1, add_wall COLORS_get st color x1 y1 x2 y2 = Ok (update st1)
               /\ walls (self st1) = walls (self st) ++ [box]
               /\ _robots (self st1) = _robots (self st))
  /\ walls_to_json [box] = Ok [entry]
  /\ (exists st1, add_walls COLORS_get st [entry] = Ok (update st1)
                  /\ walls (self st1) = walls (self st) ++ [box]).
Proof.
  intros Hc box entry. split; [| split].
  - unfold add_wall. rewrite Hc. cbn [bind].
    eexists. split; [reflexivity |]. split; reflexivity.
  - reflexivity.
  - unfold add_walls, entry. cbn [Cameras.for_each k_color k_p1 k_p2 fst snd].
    unfold add_wall.
    rewrite (color_of_own_str COLORS_get color c Hc). cbn [bind].
    eexists. split; [reflexivity |]. reflexivity.
Qed.

End Walls.

(** ** The raster backend *)

Section Raster.

Import PIL.

Context {trig : Trig}.

Lemma for_each_ext {A S : Type} (l : list A)
    (f g : A -> S -> result S) (s : S) :
  (forall a s, f a s = g a s) ->
  Cameras.for_each l f s = Cameras.for_each l g s.
Proof.
  intros Hfg. revert s. induction l as [| a l IH]; intros s; cbn;
    [reflexivity |].
  rewrite Hfg. destruct (g a s); cbn; [apply IH | reflexivity].
Qed.

Lemma set_matrix_matrix (b : Backend) : set_matrix b (matrix b) = b.
Proof. destruct b; reflexivity. Qed.

Lemma append_transforms (b : Backend) (frames : list (list transform))
    (frame : list transform) (ops : list transform) :
  Cameras.for_each ops (fun t b => append_transform b t)
    (set_matrix b (frames ++ [frame]))
  = Ok (set_matrix b (frames ++ [frame ++ ops])).
Proof.
  revert frame. induction ops as [| t ops IH]; intros frame.
  - cbn. rewrite app_nil_r. reflexivity.
  - cbn [Cameras.for_each]. unfold append_transform at 1.
    cbn [matrix set_matrix]. rewrite rev_app_distr. cbn [rev app bind].
    rewrite rev_involutive.
    change (set_matrix (set_matrix b (frames ++ [frame]))
              (frames ++ [frame ++ [t]]))
      with (set_matrix b (frames ++ [frame ++ [t]])).
    rewrite IH, <- app_assoc. reflexivity.
Qed.

(** X15.  The transform stack is a stack of frames: after [pushMatrix],
    any number of [translate] and [rotate] calls and one [popMatrix], the
    backend is exactly as before, so every point is mapped by [p] as
    before.  With no frame pushed, [translate], [rotate] and [popMatrix]
    raise [IndexError]. *)
Theorem push_pop_restores (b : Backend) (ops : list transform) :
  (exists b1,
      Cameras.for_each ops
        (fun t b =>
           match t with
           | Translate x y => translate b x y
           | Rotate angle => rotate b angle
           end)
        (pushMatrix b) = Ok b1
      /\ matrix b1 = matrix b ++ [ops]
      /\ popMatrix b1 = Ok b
      /\ forall x y, (b2 <- popMatrix b1 ;; Ok (p b2 x y)) = Ok (p b x y))
  /\ (matrix b = [] ->
      forall x y angle,
        translate b x y = Raise IndexError
        /\ rotate b angle = Raise IndexError
        /\ popMatrix b = Raise IndexError).
Proof.
  split.
  - exists (set_matrix b (matrix b ++ [ops])).
    assert (Hpop : popMatrix (set_matrix b (matrix b ++ [ops])) = Ok b).
    { unfold popMatrix. cbn [matrix set_matrix].
      rewrite rev_app_distr. cbn [rev app]. rewrite rev_involutive.
      change (set_matrix (set_matrix b (matrix b ++ [ops])) (matrix b))
        with (set_matrix b (matrix b)).
      rewrite set_matrix_matrix. reflexivity. }
    split; [| split; [reflexivity | split; [exact Hpop |]]].
    + rewrite (for_each_ext ops _ (fun t b0 => append_transform b0 t)).
      * unfold pushMatrix. apply (append_transforms b (matrix b) [] ops).
      * intros [tx ty | angle] b0; reflexivity.
    + intros x y. rewrite Hpop. reflexivity.
  - intros Hempty x y angle.
    unfold translate, rotate, append_transform, popMatrix.
    rewrite Hempty. repeat split.
Qed.

Lemma offsets_app (l1 l2 : list transform) :
  (fst (offsets (l1 ++ l2)) == fst (offsets l1) + fst (offsets l2))%Q
  /\ (snd (offsets (l1 ++ l2)) == snd (offsets l1) + snd (offsets l2))%Q.
Proof.
  induction l1 as [| [tx ty | angle] l1 [IH1 IH2]].
  - change (offsets []) with (0%Q, 0%Q). cbn [app fst snd]. split; ring.
  - change (offsets ((Translate tx ty :: l1) ++ l2))
      with ((tx + fst (offsets (l1 ++ l2)))%Q,
            (ty + snd (offsets (l1 ++ l2)))%Q).
    change (offsets (Translate tx ty :: l1))
      with ((tx + fst (offsets l1))%Q, (ty + snd (offsets l1))%Q).
    cbn [fst snd]. rewrite IH1, IH2. split; ring.
  - exact (conj IH1 IH2).
Qed.

Lemma offsets_rev (l : list transform) :
  (fst (offsets (rev l)) == fst (offsets l))%Q
  /\ (snd (offsets (rev l)) == snd (offsets l))%Q.
Proof.
  induction l as [| t l [IH1 IH2]]; [split; reflexivity |].
  cbn [rev]. destruct (offsets_app (rev l) [t]) as [H1 H2].
  rewrite H1, H2, IH1, IH2.
  destruct t as [tx ty | angle].
  - change (offsets (Translate tx ty :: l))
      with ((tx + fst (offsets l))%Q, (ty + snd (offsets l))%Q).
    change (offsets [Translate tx ty]) with ((tx + 0)%Q, (ty + 0)%Q).
    cbn [fst snd]. split; ring.
  - change (offsets (Rotate angle :: l)) with (offsets l).
    change (offsets [Rotate angle]) with (0%Q, 0%Q).
    cbn [fst snd]. split; ring.
Qed.

Lemma fold_translations (l : list transform) (x y : Q) :
  Forall is_translate l ->
  (fst (fold_left apply_transform l (x, y)) == x + fst (offsets l))%Q
  /\ (snd (fold_left apply_transform l (x, y)) == y + snd (offsets l))%Q.
Proof.
  intros Hall. revert x y.
  induction Hall as [| t l Ht _ IH]; intros x y.
  - change (offsets []) with (0%Q, 0%Q). cbn [fold_left fst snd].
    split; ring.
  - destruct t as [tx ty | angle]; [| destruct Ht].
    change (fold_left apply_transform (Translate tx ty :: l) (x, y))
      with (fold_left apply_transform l ((x + tx)%Q, (y + ty)%Q)).
    change (offsets (Translate tx ty :: l))
      with ((tx + fst (offsets l))%Q, (ty + snd (offsets l))%Q).
    destruct (IH (x + tx)%Q (y + ty)%Q) as [H1 H2].
    rewrite H1, H2. cbn [fst snd]. split; ring.
Qed.

Lemma fold_frames_translations (frames : list (list transform)) (x y : Q) :
  Forall (Forall is_translate) frames ->
  let xy :=
    fold_left (fun xy frame => fold_left apply_transform (rev frame) xy)
      frames (x, y) in
  (fst xy == x + fst (offsets (concat frames)))%Q
  /\ (snd xy == y + snd (offsets (concat frames)))%Q.
Proof.
  intros Hall. revert x y.
  induction Hall as [| frame frames Hf _ IH]; intros x y.
  - change (offsets (concat [])) with (0%Q, 0%Q). cbn [fold_left fst snd].
    split; ring.
  - cbn [fold_left concat].
    destruct (fold_left apply_transform (rev frame) (x, y)) as [x1 y1] eqn:E.
    destruct (fold_translations (rev frame) x y (Forall_rev Hf)) as [H1 H2].
    rewrite E in H1, H2. cbn [fst snd] in H1, H2.
    destruct (IH x1 y1) as [G1 G2].
    destruct (offsets_app frame (concat frames)) as [A1 A2].
    destruct (offsets_rev frame) as [R1 R2].
    cbv zeta. rewrite G1, G2, A1, A2, H1, H2, R1, R2. split; ring.
Qed.

(** The two loops of [p] are one pass over the transforms in the order
    of [applied]. *)
Lemma fold_frames_applied (frames : list (list transform)) (xy : Q * Q) :
  fold_left (fun xy frame => fold_left apply_transform (rev frame) xy)
    frames xy
  = fold_left apply_transform (applied frames) xy.
Proof.
  revert xy. induction frames as [| frame frames IH]; intros xy.
  - reflexivity.
  - change (applied (frame :: frames)) with (rev frame ++ applied frames).
    rewrite fold_left_app. cbn [fold_left]. apply IH.
Qed.

(** Translations act on each coordinate by itself, one addition per
    transform, in the order of the list. *)
Lemma fold_translations_in_order (l : list transform) (x y : Q) :
  Forall is_translate l ->
  fold_left apply_transform l (x, y)
  = (fold_left (fun a t => (a + shift_x t)%Q) l x,
     fold_left (fun a t => (a + shift_y t)%Q) l y).
Proof.
  intros Hall. revert x y.
  induction Hall as [| t l Ht _ IH]; intros x y; [reflexivity |].
  destruct t as [tx ty | angle]; [| destruct Ht].
  change (fold_left apply_transform (Translate tx ty :: l) (x, y))
    with (fold_left apply_transform l ((x + tx)%Q, (y + ty)%Q)).
  rewrite IH. reflexivity.
Qed.

Lemma applied_translations (frames : list (list transform)) :
  Forall (Forall is_translate) frames -> Forall is_translate (applied frames).
Proof.
  intros Hall. unfold applied.
  induction Hall as [| frame frames Hf _ IH]; [constructor |].
  cbn [map concat]. apply Forall_app. split; [| exact IH].
  apply Forall_rev. exact Hf.
Qed.

Lemma p_in_order (b : Backend) (x y : Q) :
  Forall (Forall is_translate) (matrix b) ->
  p b x y
  = ((fold_left (fun a t => (a + shift_x t)%Q) (applied (matrix b)) x
      * _scale b)%Q,
     (fold_left (fun a t => (a + shift_y t)%Q) (applied (matrix b)) y
      * _scale b)%Q).
Proof.
  intros Hall. unfold p. rewrite fold_frames_applied.
  rewrite (fold_translations_in_order _ x y (applied_translations _ Hall)).
  reflexivity.
Qed.

(** X16.  When the frames of the transform stack hold translations only,
    [p] treats the two coordinates apart: to x it adds the x parts of the
    translations one after the other, frame after frame and within a
    frame from the translation pushed last to the one pushed first, and
    multiplies the sum by the scale; likewise for y.  The additions are
    made in that order, none regrouped, and x never depends on y. *)
Theorem p_translations (b : Backend) (x y : Q) :
  Forall (Forall is_translate) (matrix b) ->
  p b x y
  = ((fold_left (fun a t => (a + shift_x t)%Q) (applied (matrix b)) x
      * _scale b)%Q,
     (fold_left (fun a t => (a + shift_y t)%Q) (applied (matrix b)) y
      * _scale b)%Q).
Proof. apply p_in_order. Qed.

Lemma draw_line_calls (b : Backend) (x1 y1 x2 y2 : Q) :
  List.length (calls (draw_line b x1 y1 x2 y2)) = S (List.length (calls b))
  /\ matrix (draw_line b x1 y1 x2 y2) = matrix b
  /\ stroke_style (draw_line b x1 y1 x2 y2) = stroke_style b.
Proof.
  unfold draw_line. destruct (p b x1 y1), (p b x2 y2).
  cbn [calls call matrix stroke_style]. rewrite length_app.
  cbn [List.length]. repeat split. lia.
Qed.

Lemma getitem_in_range {A : Type} (l : list A) (i : Z) :
  0 <= i < Z.of_nat (List.length l) ->
  exists a, Cameras.getitem l i = Ok a.
Proof.
  intros Hi. unfold Cameras.getitem.
  replace (i <? 0) with false by (symmetry; apply Z.ltb_ge; lia).
  replace (0 <=? i) with true by (symmetry; apply Z.leb_le; lia).
  replace (i <? Z.of_nat (List.length l)) with true
    by (symmetry; apply Z.ltb_lt; lia).
  cbn [andb].
  destruct (nth_error l (Z.to_nat i)) as [a |] eqn:E; [eauto |].
  apply nth_error_None in E. lia.
Qed.

Lemma range_snoc (k : nat) :
  range (Z.of_nat (S k)) = range (Z.of_nat k) ++ [Z.of_nat k].
Proof.
  unfold range. rewrite !Nat2Z.id, seq_S, map_app. reflexivity.
Qed.

(** X17.  [draw_lines] on n points sets the stroke style it is given and
    draws a segment from point i to point i+1 only for i < n - 2: it
    makes n - 2 line calls (none for two points or fewer), one less than
    the n - 1 segments of the polyline, and never fails. *)
Theorem draw_lines_count (b : Backend) (points : list (Q * Q))
    (style : PIL.style) :
  exists b',
    draw_lines b points style = Ok b'
    /\ List.length (calls b')
       = (List.length (calls b) + (List.length points - 2))%nat
    /\ matrix b' = matrix b
    /\ stroke_style b' = style.
Proof.
  unfold draw_lines.
  set (b0 := set_stroke b style).
  set (n := List.length points).
  set (body := fun (i : Z) (b1 : Backend) =>
                 if i <? Z.of_nat n - 2
                 then
                   a <- Cameras.getitem points i ;;
                   c <- Cameras.getitem points (i + 1) ;;
                   Ok (draw_line b1 (fst a) (snd a) (fst c) (snd c))
                 else Ok b1).
  assert (Hloop : forall k, (k <= n)%nat ->
            exists bk,
              Cameras.for_each (range (Z.of_nat k)) body b0 = Ok bk
              /\ List.length (calls bk)
                 = (List.length (calls b) + Nat.min k (n - 2))%nat
              /\ matrix bk = matrix b
              /\ stroke_style bk = style).
  { induction k as [| k IH]; intros Hk.
    - exists b0. repeat split. cbn. lia.
    - destruct (IH ltac:(lia)) as (bk & Hrun & Hcalls & Hm & Hs).
      rewrite range_snoc, for_each_app, Hrun. cbn [bind Cameras.for_each].
      unfold body at 1.
      destruct (Z.of_nat k <? Z.of_nat n - 2) eqn:E.
      + apply Z.ltb_lt in E.
        destruct (getitem_in_range points (Z.of_nat k) ltac:(fold n; lia))
          as [a Ha].
        destruct (getitem_in_range points (Z.of_nat k + 1)
                    ltac:(fold n; lia)) as [c Hc].
        rewrite Ha. cbn [bind]. rewrite Hc. cbn [bind].
        eexists. split; [reflexivity |].
        destruct (draw_line_calls bk (fst a) (snd a) (fst c) (snd c))
          as (L1 & L2 & L3).
        rewrite L1, L2, L3, Hcalls. repeat split; try assumption. lia.
      + apply Z.ltb_ge in E. cbn [bind].
        exists bk. repeat split; try assumption. lia. }
  destruct (Hloop n (Nat.le_refl n)) as (bn & Hrun & Hcalls & Hm & Hs).
  exists bn. split; [exact Hrun |]. split; [| split; assumption].
  rewrite Hcalls. lia.
Qed.

End Raster.

(** ** The depth picture of a wall *)

Section DepthPicture.

Import Cameras CameraMore.

Lemma putpixel_written (pic pic' : Picture) (i j : Z) (t : Z * Z * Z * Z) :
  0 <= i -> 0 <= j -> putpixel pic i j t = Ok pic' ->
  pic_width pic' = pic_width pic
  /\ pic_height pic' = pic_height pic
  /\ pixel pic' i j = clipped t
  /\ forall a b, a <> i \/ b <> j -> pixel pic' a b = pixel pic a b.
Proof.
  intros Hi Hj H. unfold putpixel in H.
  replace (i <? 0) with false in H by (symmetry; apply Z.ltb_ge; lia).
  replace (j <? 0) with false in H by (symmetry; apply Z.ltb_ge; lia).
  destruct (_ || _) in H; [discriminate |].
  destruct t as [[[r g] b] al]. injection H as <-.
  cbn [pic_width pic_height pixel clipped].
  rewrite !Z.eqb_refl. cbn [andb]. repeat split.
  intros a0 b0 Hab.
  replace ((a0 =? i) && (b0 =? j)) with false; [reflexivity |].
  symmetry. apply andb_false_iff.
  destruct Hab as [Hab | Hab]; [left | right]; apply Z.eqb_neq; exact Hab.
Qed.

Lemma rows_loop (i : Z) (Q : Z -> Z * Z * Z * Z -> Prop)
    (body : Z -> Picture -> result Picture) (k : nat) :
  (forall j p p', 0 <= j < Z.of_nat k -> body j p = Ok p' ->
     Q j (pixel p' i j) /\ forall b, b <> j -> pixel p' i b = pixel p i b) ->
  forall pic pic',
    for_each (range (Z.of_nat k)) body pic = Ok pic' ->
    forall j, 0 <= j < Z.of_nat k -> Q j (pixel pic' i j).
Proof.
  induction k as [| k IH]; intros Hbody pic pic' Hrun j Hj; [lia |].
  rewrite range_snoc, for_each_app in Hrun.
  destruct (for_each (range (Z.of_nat k)) body pic) as [pk |] eqn:Ek;
    cbn [bind for_each] in Hrun; [| discriminate].
  destruct (body (Z.of_nat k) pk) as [p1 |] eqn:E1; cbn [bind] in Hrun;
    [| discriminate].
  injection Hrun as <-.
  destruct (Hbody (Z.of_nat k) pk p1 ltac:(lia) E1) as [HQ Hother].
  destruct (Z.eq_dec j (Z.of_nat k)) as [-> | Hne]; [exact HQ |].
  rewrite (Hother j Hne).
  apply (IH (fun j0 p p' Hj0 => Hbody j0 p p' ltac:(lia)) pic pk Ek).
  lia.
Qed.

Lemma rows_written (i : Z) (Q : Z -> Z * Z * Z * Z -> Prop)
    (body : Z -> Picture -> result Picture) (n : Z) :
  (forall j p p', 0 <= j < n -> body j p = Ok p' ->
     Q j (pixel p' i j) /\ forall b, b <> j -> pixel p' i b = pixel p i b) ->
  forall pic pic',
    for_each (range n) body pic = Ok pic' ->
    forall j, 0 <= j < n -> Q j (pixel pic' i j).
Proof.
  intros Hbody pic pic' Hrun j Hj.
  apply (rows_loop i Q body (Z.to_nat n)) with (pic := pic) (pic' := pic').
  - intros j0 p p' Hj0. apply Hbody. lia.
  - unfold range in *. rewrite Nat2Z.id. exact Hrun.
  - lia.
Qed.



Lemma clip8_range (v : Z) : 0 <= clip8 v <= 255.
Proof.
  unfold clip8.
  destruct (v <=? 0) eqn:E0; [lia |].
  destruct (v <? 256) eqn:E1; [| lia].
  apply Z.leb_gt in E0. apply Z.ltb_lt in E1. lia.
Qed.

(** What Pillow stores for a colour built from one number, and from the
    same number three times: an opaque grey. *)
Lemma grey_written (n : Q) :
  exists v : Z,
    0 <= v <= 255
    /\ clipped (to_tuple (Color1 n)) = (v, v, v, 255)
    /\ clipped (to_tuple (Color3 n n n)) = (v, v, v, 255).
Proof.
  exists (clip8 (int_of n)). split; [apply clip8_range |].
  split; reflexivity.
Qed.

Lemma depth_backdrop_grey (reflect : bool) (dist : Q) :
  exists v : Z,
    0 <= v <= 255
    /\ clipped (to_tuple (backdrop "depth" reflect dist)) = (v, v, v, 255).
Proof.
  destruct reflect.
  - destruct (grey_written (255 * dist)) as (v & Hv & E & _).
    exists v. split; [exact Hv | exact E].
  - destruct (grey_written 0) as (v & Hv & E & _).
    exists v. split; [exact Hv | exact E].
Qed.

Lemma walls_found (column : list Hit) (wall : Hit) :
  getitem (filter (fun hit => Qeq_bool (hit_height hit) 1) column) (-1)
  = Ok wall ->
  (List.length (filter (fun hit => Qeq_bool (hit_height hit) 1) column)
   =? 0)%nat = false.
Proof.
  destruct (filter _ column); [| reflexivity].
  rewrite getitem_nil. discriminate.
Qed.

(** In a picture of type "depth", every row of a column with a wall is
    written by the first pass with an opaque grey. *)
Lemma depth_column_grey (c : Camera)
    (area : option (list ((Q * Q) * (Q * Q)))) (size : Q) (i : Z)
    (column : list Hit) (wall : Hit) (pic pic' : Picture) :
  0 <= i ->
  getitem (hits c) i = Ok column ->
  getitem (filter (fun hit => Qeq_bool (hit_height hit) 1) column) (-1)
  = Ok wall ->
  wall_column c "depth" area size i pic = Ok pic' ->
  forall j, 0 <= j < snd (cameraShape c) ->
    exists v : Z, 0 <= v <= 255 /\ pixel pic' i j = (v, v, v, 255).
Proof.
  intros Hi Hcol Hwall Hrun.
  unfold wall_column in Hrun. rewrite Hcol in Hrun. cbn [bind] in Hrun.
  rewrite (walls_found column wall Hwall), Hwall in Hrun.
  cbn [bind] in Hrun. unfold truthy in Hrun.
  bound Hrun look. destruct look as [hcolor high].
  bound E ratio. bound E s. bound E sc.
  change (shade "depth" wall ratio sc)
    with ((255 * ratio)%Q, (255 * ratio)%Q, (255 * ratio)%Q) in E.
  injection E as <- <-.
  eapply (rows_written i
            (fun _ v' => exists v : Z, 0 <= v <= 255 /\ v' = (v, v, v, 255)));
    [| exact Hrun].
  clear Hrun.
  intros j p p' Hj Hbody. cbv beta in Hbody.
  bound Hbody q.
  destruct (ltb (inject_Z j) _) in Hbody.
  { destruct (putpixel_written _ _ _ _ _ Hi (proj1 Hj) Hbody)
      as (_ & _ & Hw & Ho).
    split; [| intros b Hb; apply Ho; right; exact Hb].
    rewrite Hw. apply depth_backdrop_grey. }
  destruct (ltb (inject_Z j) _) in Hbody.
  { destruct (putpixel_written _ _ _ _ _ Hi (proj1 Hj) Hbody)
      as (_ & _ & Hw & Ho).
    split; [| intros b Hb; apply Ho; right; exact Hb].
    rewrite Hw.
    destruct (grey_written (255 * ratio)) as (v & Hv & _ & E3).
    exists v. split; [exact Hv | exact E3]. }
  change (String.eqb "depth" "depth") with true in Hbody.
  cbn [bind] in Hbody.
  destruct (putpixel_written _ _ _ _ _ Hi (proj1 Hj) Hbody)
    as (_ & _ & Hw & Ho).
  split; [| intros b Hb; apply Ho; right; exact Hb].
  rewrite Hw. apply depth_backdrop_grey.
Qed.


(** X18.  In a picture of type "depth", once the first pass is over,
    every row of a column that has a wall holds an opaque grey: red,
    green and blue are one value between 0 and 255 and alpha is 255,
    whether the row shows sky, wall or ground.  The columns painted later
    do not touch it. *)
Theorem depth_wall_band (c : Camera)
    (area : option (list ((Q * Q) * (Q * Q)))) (size : Q) (i : Z)
    (column : list Hit) (wall : Hit) (pic pic' : Picture) :
  0 <= i < fst (cameraShape c) ->
  getitem (hits c) i = Ok column ->
  getitem (filter (fun hit => Qeq_bool (hit_height hit) 1) column) (-1)
  = Ok wall ->
  wall_pass c "depth" area size pic = Ok pic' ->
  forall j, 0 <= j < snd (cameraShape c) ->
    exists v : Z, 0 <= v <= 255 /\ pixel pic' i j = (v, v, v, 255).
Proof.
  intros Hi Hcol Hwall Hrun j Hj.
  unfold wall_pass in Hrun.
  rewrite (range_split (Z.to_nat i) (fst (cameraShape c))) in Hrun by lia.
  rewrite for_each_app in Hrun.
  destruct (for_each (range (Z.of_nat (Z.to_nat i))) _ pic) as [p1 |];
    cbn [bind for_each] in Hrun; [| discriminate].
  rewrite Z2Nat.id in Hrun by lia.
  destruct (wall_column c "depth" area size i p1) as [p2 |] eqn:E2;
    cbn [bind] in Hrun; [| discriminate].
  assert (Hkeep : forall b, pixel pic' i b = pixel p2 i b).
  { revert Hrun.
    apply (for_each_invariant
             (fun p => forall b, pixel p i b = pixel p2 i b));
      [| reflexivity].
    intros k t t' Hk Ht Hbody b. rewrite <- (Ht b).
    apply in_map_iff in Hk. destruct Hk as (m & <- & Hm).
    apply in_seq in Hm.
    apply (wall_column_other_column c "depth" area size (Z.of_nat m) t t');
      [lia | exact Hbody | lia]. }
  rewrite (Hkeep j).
  apply (depth_column_grey c area size i column wall p1 p2 (proj1 Hi)
           Hcol Hwall E2 j Hj).
Qed.

End DepthPicture.

(** ** The wall of a column *)

Section ClosestWall.

Import Cameras CameraMore.




(** Every hit list either has no hit of height >= 1.0, and then
    [find_closest_wall] returns infinity, or it splits at its last such
    hit, the hits after it all having height < 1.0. *)
Lemma last_wall_split (hits : list Hit) :
  (Forall (fun h => (hit_height h < 1)%Q) hits
   /\ find_closest_wall hits = PosInf)
  \/ (exists (before after : list Hit) (wall : Hit),
        hits = before ++ wall :: after
        /\ (1 <= hit_height wall)%Q
        /\ Forall (fun h => (hit_height h < 1)%Q) after).
Proof.
  induction hits as [| h l IH] using rev_ind.
  - left. split; [constructor | reflexivity].
  - destruct (ltb (hit_height h) 1) eqn:E.
    + apply ltb_lt in E. destruct IH as [[Hall Hinf] | IH].
      * left. split.
        -- apply Forall_app. split; [exact Hall | repeat constructor; exact E].
        -- unfold find_closest_wall in *. rewrite rev_app_distr.
           cbn [rev app first_wall].
           replace (ltb (hit_height h) 1) with true
             by (symmetry; apply ltb_lt; exact E).
           exact Hinf.
      * right. destruct IH as (before & after & wall & -> & Hw & Hafter).
        exists before, (after ++ [h]), wall.
        split; [rewrite <- app_assoc; reflexivity |].
        split; [exact Hw |].
        apply Forall_app. split; [exact Hafter | repeat constructor; exact E].
    + apply ltb_ge in E. right. exists l, [], h.
      split; [reflexivity |]. split; [exact E | constructor].
Qed.


End ClosestWall.

(** ** Shapes and styles of the raster backend *)

Section RasterShapes.

Import PIL.

Context {trig : Trig}.

Lemma p_set_points (b : Backend) (pts : list (Q * Q)) (x y : Q) :
  p (set_points b pts) x y = p b x y.
Proof. reflexivity. Qed.

Lemma vertices_collected (b : Backend) (vs pts : list (Q * Q)) :
  fold_left (fun b v => vertex b (fst v) (snd v)) vs (set_points b pts)
  = set_points b (pts ++ map (fun v => p b (fst v) (snd v)) vs).
Proof.
  revert pts. induction vs as [| v vs IH]; intros pts.
  - cbn. rewrite app_nil_r. reflexivity.
  - cbn [fold_left map]. unfold vertex at 2.
    rewrite p_set_points.
    change (set_points (set_points b pts)
              (points (set_points b pts) ++ [p b (fst v) (snd v)]))
      with (set_points b (pts ++ [p b (fst v) (snd v)])).
    rewrite IH, <- app_assoc. reflexivity.
Qed.

(** X19.  A shape drawn with [beginShape], one [vertex] per corner and
    [endShape]: with two corners or more it makes exactly one polygon
    call, whose corners are the vertices mapped by [p], in the order
    given, whose fill is the fill style and whose outline is the stroke
    style; whatever path was pending before [beginShape] is dropped and
    the transform stack is untouched.  With no corner or a single one,
    [endShape] raises the TypeError of Pillow's polygon and nothing is
    drawn. *)
Theorem shape_polygon (b : Backend) (vs : list (Q * Q)) :
  let shape :=
    fold_left (fun b v => vertex b (fst v) (snd v)) vs (beginShape b) in
  if (List.length vs <? 2)%nat then endShape shape = Raise TypeError
  else
    exists b' : Backend,
      endShape shape = Ok b'
      /\ calls b'
         = calls b
           ++ [DrawPolygon (map (fun v => p b (fst v) (snd v)) vs)
                 (get_style b "fill") (get_style b "stroke")]
      /\ matrix b' = matrix b.
Proof.
  unfold beginShape. rewrite vertices_collected. cbn [app].
  unfold endShape.
  change (points (set_points b (map (fun v => p b (fst v) (snd v)) vs)))
    with (map (fun v => p b (fst v) (snd v)) vs).
  rewrite length_map.
  destruct (List.length vs <? 2)%nat; [reflexivity |].
  eexists. split; [reflexivity |]. split; reflexivity.
Qed.

(** X20.  On this backend a stroke or fill that is switched off is opaque
    black: after [noStroke], [strokeStyle] without colour, [noFill] or
    [set_fill] without colour, the ink handed to Pillow is the string
    "#000000FF", and after [set_fill] or [strokeStyle] with a colour it is
    that colour's hexcode; only a style name other than "fill" and
    "stroke" gives no ink. *)
Theorem switched_off_style_is_black (b : Backend) (c : Color) (w : Q)
    (name : string) :
  get_style (noStroke b) "stroke" = InkStr "#000000FF"
  /\ get_style (strokeStyle b None w) "stroke" = InkStr "#000000FF"
  /\ get_style (noFill b) "fill" = InkStr "#000000FF"
  /\ get_style (set_fill b None) "fill" = InkStr "#000000FF"
  /\ get_style (set_fill b (Some c)) "fill" = InkStr (to_hexcode c)
  /\ get_style (strokeStyle b (Some c) w) "stroke" = InkStr (to_hexcode c)
  /\ (name <> "fill"%string -> name <> "stroke"%string ->
      get_style b name = InkNone).
Proof.
  assert (Hhex : forall k : Color,
            get_color (StyleStr (to_hexcode k)) = InkStr (to_hexcode k)).
  { intros k. unfold to_hexcode. destruct (to_tuple k) as [[[r g] bl] a].
    reflexivity. }
  repeat split; try reflexivity; try apply Hhex.
  intros Hf Hs. unfold get_style.
  apply String.eqb_neq in Hf. apply String.eqb_neq in Hs.
  rewrite Hf, Hs. reflexivity.
Qed.

End RasterShapes.

(** ** Boxes, ellipses and arcs on the raster backend *)

Section RasterBoxes.

Import PIL.

Context {trig : Trig}.

Lemma p_same_stack (b b' : Backend) (x y : Q) :
  matrix b' = matrix b -> _scale b' = _scale b -> p b' x y = p b x y.
Proof. intros Hm Hs. unfold p. rewrite Hm, Hs. reflexivity. Qed.

Lemma p_moved (b : Backend) (x y : Q) :
  Forall (Forall is_translate) (matrix b) ->
  (fst (p b x y) == (x + fst (offsets (concat (matrix b)))) * _scale b)%Q
  /\ (snd (p b x y) == (y + snd (offsets (concat (matrix b)))) * _scale b)%Q.
Proof.
  intros Hall. unfold p.
  destruct (fold_frames_translations (matrix b) x y Hall) as [H1 H2].
  cbv zeta in H1, H2.
  destruct (fold_left _ (matrix b) (x, y)) as [x1 y1].
  cbn [fst snd] in *. rewrite H1, H2. split; reflexivity.
Qed.

(** X24.  [draw_rect] makes exactly one polygon call with the four corners
    of the box mapped by [p], filled with the fill style and never
    outlined: it asks for the style named "outline", which [get_style]
    does not know, so the stroke style that is set has no effect on it.
    [clear] is that call for the box of the whole surface. *)
Theorem draw_rect_unoutlined (b : Backend) (s : style) (x y w h : Q) :
  calls (draw_rect (set_stroke b s) x y w h)
  = calls b
    ++ [DrawPolygon
          [p b x y; p b (x + w) y; p b (x + w) (y + h); p b x (y + h)]
          (get_color (fill_style b)) InkNone]
  /\ calls (clear (set_stroke b s))
     = calls (draw_rect b 0 0 (width b) (height b))
  /\ matrix (draw_rect b x y w h) = matrix b
  /\ points (draw_rect b x y w h) = points b.
Proof.
  repeat split.
Qed.

(** X25.  [Camera.draw] on the raster backend makes one polygon call of
    four corners filled with "#004000FF" and without outline, and it
    leaves its styles behind: afterwards the fill style is "#004000FF",
    the stroke style is "#000000FF" and the line width is 0, whatever
    they were before; the transform stack is untouched. *)
Theorem camera_draw_polygon (b : Backend) :
  let b' := Camera_draw b in
  (exists corners : list (Q * Q),
     calls b' = calls b ++ [DrawPolygon corners (InkStr "#004000FF") InkNone]
     /\ List.length corners = 4%nat
     /\ nth_error corners 0 = Some (p b 5 (- (333 # 100))))
  /\ fill_style b' = StyleStr "#004000FF"
  /\ stroke_style b' = StyleStr "#000000FF"
  /\ (line_width b' == 0)%Q
  /\ matrix b' = matrix b.
Proof.
  cbv zeta. split; [| repeat split; reflexivity].
  eexists. split; [reflexivity |]. split; reflexivity.
Qed.

(** X26.  While the transform stack holds translations only, the polygon
    that [draw_ellipse] hands to Pillow has its second corner on its third
    one: the figure drawn is the triangle (x, y), (x + 2 rx, y + 2 ry),
    (x, y + 2 ry) moved and scaled, not an ellipse. *)
Theorem draw_ellipse_corners (b : Backend) (x y rx ry : Q) :
  Forall (Forall is_translate) (matrix b) ->
  exists P1 P2 P3 P4 : Q * Q,
    calls (draw_ellipse b x y rx ry)
    = calls b
      ++ [DrawPolygon [P1; P2; P3; P4] (get_color (fill_style b))
            (get_color (stroke_style b))]
    /\ P1 = p b x y
    /\ P3 = p b (x + rx * 2) (y + ry * 2)
    /\ P4 = p b x (y + ry * 2)
    /\ (fst P2 == fst P3)%Q /\ (snd P2 == snd P3)%Q.
Proof.
  intros Hall.
  exists (p b x y),
    (fst (p b (x + rx * 2) y), snd (p b (x + rx * 2) (y + ry * 2))),
    (p b (x + rx * 2) (y + ry * 2)), (p b x (y + ry * 2)).
  repeat split; try reflexivity.
  cbn [fst].
  destruct (p_moved b (x + rx * 2) y Hall) as [H1 _].
  destruct (p_moved b (x + rx * 2) (y + ry * 2) Hall) as [H2 _].
  rewrite H1, H2. reflexivity.
Qed.

(** X27.  While the transform stack holds translations only, [draw_arc]
    draws one straight stroke, from the mapped point (x, y) to the mapped
    point (x + width, y), and the stroke is horizontal: both ends have the
    very same ordinate.  Its height and its two angles play no part. *)
Theorem draw_arc_flat (b : Backend) (x y w h startAngle endAngle : Q) :
  Forall (Forall is_translate) (matrix b) ->
  exists x1 y1 x2 y2 : Q,
    calls (draw_arc b x y w h startAngle endAngle)
    = calls b
      ++ [DrawLine x1 y1 x2 y2 (get_color (stroke_style b)) (line_width b)]
    /\ (x1, y1) = p b x y
    /\ (x2, y2) = p b (x + w) y
    /\ y2 = y1.
Proof.
  intros Hall. unfold draw_arc, draw_line.
  rewrite (p_in_order b x y Hall), (p_in_order b (x + w) y Hall).
  do 4 eexists. repeat split.
Qed.

End RasterBoxes.

(** ** The ground under the camera *)

Section Ground.

Import Cameras.

Context {collab : Collaborators}.

Lemma Qfloor_nonneg (x : Q) : (0 <= x)%Q -> 0 <= Qfloor x.
Proof.
  intros Hx. change 0 with (Qfloor 0). apply Qfloor_resp_le. exact Hx.
Qed.

Lemma round_bounds (x : Q) :
  (0 <= x)%Q -> 0 <= round x /\ (inject_Z (round x) <= x + (1 # 2))%Q.
Proof.
  intros Hx. unfold round.
  pose proof (Qfloor_nonneg x Hx) as Hf.
  pose proof (Qfloor_le x) as Hle.
  set (f := Qfloor x) in *.
  destruct (x - inject_Z f ?= 1 # 2)%Q eqn:E.
  - apply Qeq_alt in E.
    destruct (Z.even f); (split; [lia |]);
      rewrite ?inject_Z_plus; change (inject_Z 1) with 1%Q; lra.
  - split; [lia | lra].
  - apply Qgt_alt in E. split; [lia |].
    rewrite inject_Z_plus. change (inject_Z 1) with 1%Q. lra.
Qed.

Lemma round_small (x : Q) : (0 <= x)%Q -> (x <= 1 # 2)%Q -> round x = 0.
Proof.
  intros Hx Hhalf. unfold round.
  pose proof (Qfloor_nonneg x Hx) as Hf.
  pose proof (Qfloor_le x) as Hle.
  assert (Hz : Qfloor x = 0).
  { assert (H : (inject_Z (Qfloor x) <= 1 # 2)%Q) by lra.
    unfold Qle in H. cbn in H. lia. }
  rewrite Hz in *. change (inject_Z 0) with 0%Q.
  destruct (x - 0 ?= 1 # 2)%Q eqn:E; try reflexivity.
  apply Qgt_alt in E. lra.
Qed.

(** X21.  [_get_visible_area] on a camera with a robot returns one pair of
    points per unit of [max_range] (none when [max_range] is not
    positive), and the first pair is the robot's own position on both
    edges of the field of view. *)
Theorem _get_visible_area_length (c : Camera) (r : Robot) :
  robot c = Some r ->
  exists area,
    _get_visible_area c = Ok area
    /\ List.length area = Z.to_nat (max_range c)
    /\ (0 < max_range c ->
        nth_error area 0 = Some ((x r, y r), (x r, y r))).
Proof.
  intros Hr. unfold _get_visible_area, the_robot. rewrite Hr. cbn [bind].
  destruct (rotate_around r 0 0 1 (direction r + angle c / 2)) as [dx1 dy1].
  destruct (rotate_around r 0 0 1 (direction r + - angle c / 2))
    as [dx2 dy2].
  eexists. split; [reflexivity |].
  assert (Hlen : forall n a b da db,
            List.length (ray_points n a b da db) = n).
  { induction n as [| n IH]; intros; cbn; [reflexivity |].
    rewrite IH. reflexivity. }
  split.
  - rewrite length_combine, !Hlen. apply Nat.min_id.
  - intros Hpos.
    destruct (Z.to_nat (max_range c)) as [| n] eqn:E; [lia |].
    reflexivity.
Qed.

(** X22.  With a ground image whose pixel table answers every lookup, a
    visible area that is not empty and a camera of positive width,
    [get_ground_color] returns a colour for every row of the picture: the
    row [area[dist]] it reads always exists, and the pixel table is only
    consulted inside the bounds it checks. *)
Theorem get_ground_color_defined (c : Camera) (w : World)
    (ground_image_pixels : Z -> Z -> result (Z * Z * Z * Z))
    (area : list ((Q * Q) * (Q * Q))) (i j : Z) :
  the_world c = Ok w ->
  ground_image w = Some ground_image_pixels ->
  (forall px py, exists t, ground_image_pixels px py = Ok t) ->
  area <> [] ->
  0 < fst (cameraShape c) ->
  0 <= j < snd (cameraShape c) ->
  exists color, get_ground_color c (Some area) i j = Ok color.
Proof.
  intros Hw Hg Htable Harea Hwidth Hj.
  unfold get_ground_color. rewrite Hw. cbn [bind]. rewrite Hg.
  set (H := inject_Z (snd (cameraShape c))).
  assert (HH : (0 < H)%Q) by (apply inject_Z_positive; lia).
  rewrite (div_positive _ _ HH). cbn [bind].
  set (n := List.length area).
  assert (Hn : (0 < n)%nat) by (destruct area; [congruence | cbn; lia]).
  set (q := ((H - inject_Z j) / H)%Q).
  assert (Hq : (0 <= q <= 1)%Q).
  { assert (Hjq : (0 <= inject_Z j)%Q)
      by (unfold Qle; cbn; lia).
    assert (Hjh : (inject_Z j <= H)%Q)
      by (unfold H, Qle; cbn; lia).
    unfold q. split.
    - apply Qle_shift_div_l; lra.
    - apply Qle_shift_div_r; lra. }
  set (t := (q / 2 * inject_Z (Z.of_nat n))%Q).
  assert (Hnq : (1 <= inject_Z (Z.of_nat n))%Q)
    by (unfold Qle; cbn; lia).
  assert (Ht : (0 <= t)%Q /\ (2 * t <= inject_Z (Z.of_nat n))%Q).
  { assert (E : (2 * t == q * inject_Z (Z.of_nat n))%Q)
      by (unfold t; field).
    assert (P0 : (0 <= q * inject_Z (Z.of_nat n))%Q)
      by (apply Qmult_le_0_compat; lra).
    assert (P1 : (q * inject_Z (Z.of_nat n) <= 1 * inject_Z (Z.of_nat n))%Q)
      by (apply Qmult_le_compat_r; lra).
    revert E P0 P1. generalize (q * inject_Z (Z.of_nat n))%Q.
    generalize (inject_Z (Z.of_nat n)). generalize t.
    intros u b v E P0 P1. split; lra. }
  assert (Hdist : 0 <= round t < Z.of_nat n).
  { destruct (Nat.eq_dec n 1) as [E1 | E1].
    - rewrite round_small; [lia | apply Ht |].
      destruct Ht as [_ Ht]. rewrite E1 in Ht.
      change (inject_Z (Z.of_nat 1)) with 1%Q in Ht.
      revert Ht. generalize t. intros u Hu. lra.
    - destruct (round_bounds t (proj1 Ht)) as [R0 R1].
      split; [exact R0 |].
      assert (R2 : (inject_Z (2 * round t) <= inject_Z (Z.of_nat n + 1))%Q).
      { rewrite inject_Z_mult, inject_Z_plus.
        change (inject_Z 2) with 2%Q. change (inject_Z 1) with 1%Q.
        assert (G : forall a b u : Q,
                  (a <= u + (1 # 2) -> 2 * u <= b -> 2 * a <= b + 1)%Q)
          by (intros; lra).
        apply (G _ _ t R1 (proj2 Ht)). }
      rewrite <- Zle_Qle in R2. lia. }
  destruct (getitem_in_range area (round t) Hdist) as [[pa pb] Hrow].
  fold n. fold q. fold t. rewrite Hrow. cbn [bind].
  destruct (sorted2 (fst pa) (fst pb)) as [minx maxx].
  destruct (sorted2 (snd pa) (snd pb)) as [miny maxy].
  assert (HW : (0 < inject_Z (fst (cameraShape c)))%Q)
    by (apply inject_Z_positive; lia).
  rewrite !(div_positive _ _ HW). cbn [bind].
  destruct (_ && _).
  - destruct (Htable
                (round ((((maxx - minx) * inject_Z i
                          / inject_Z (fst (cameraShape c))) + minx)
                        * w_scale w))
                (round ((((maxy - miny) * inject_Z i
                          / inject_Z (fst (cameraShape c))) + miny)
                        * w_scale w))) as [[[[r g] b] a] Hpix].
    rewrite Hpix. cbn [bind]. eexists. reflexivity.
  - eexists. reflexivity.
Qed.

End Ground.

(** ** Registering a robot *)

Section Registering.

Import Worlds.

Context {env : Environment}.

(** X23.  A robot that the world does not hold yet is appended to the
    robot list and a wall owned by it is appended to the walls, nothing is
    printed, and the world is then updated. *)
Theorem add_robot_registers (st : State) (robot : nat) :
  ~ In robot (_robots (self st)) ->
  exists st' : State,
    add_robot st robot = update st'
    /\ _robots (self st') = _robots (self st) ++ [robot]
    /\ (exists wall : Wall,
          walls (self st') = walls (self st) ++ [wall]
          /\ wall_robot wall = Some robot)
    /\ stdout st' = stdout st.
Proof. apply add_robot_new. Qed.

End Registering.

(** ** The further properties run on the scenes *)

Lemma unknown_color_name_witness :
  exists c : Color,
    Color_init MoreScenes.one_color (OfStr "octarine") None None None = Ok c
    /\ c = mkColor (Some "octarine"%string) 0 0 0 0
    /\ Color_str c = "octarine"%string
    /\ to_hexcode c = "#00000000"%string.
Proof.
  apply (unknown_color_name MoreScenes.one_color "octarine"); reflexivity.
Defined.

Lemma color_str_roundtrip_witness :
  Color_init MoreScenes.one_color
    (OfStr (Color_str (mkColor None 255 128 0 255))) None None None
  = Ok (mkColor None 255 128 0 255).
Proof.
  apply (color_str_roundtrip MoreScenes.one_color "#ff8000"
           (mkColor None 255 128 0 255)).
  reflexivity.
Defined.

Lemma _update_stale_buffer_witness :
  @Cameras._update Scenes.probe MoreScenes.widened_camera = Raise IndexError.
Proof.
  apply (@_update_stale_buffer Scenes.probe MoreScenes.widened_camera
           Scenes.viewer Scenes.field).
  - reflexivity.
  - reflexivity.
  - vm_compute. reflexivity.
Defined.

Lemma reset_then_update_witness :
  Cameras.hits (Cameras.set_size Scenes.small_camera 3 5)
  = map (fun _ => []) (range 3)
  /\ Cameras.hits (Cameras.set_fov Scenes.small_camera 90)
     = map (fun _ => [])
         (range (fst (Cameras.cameraShape Scenes.small_camera)))
  /\ (exists c',
        @Cameras._update Scenes.probe
          (Cameras.set_size Scenes.small_camera 3 5) = Ok c'
        /\ List.length (Cameras.hits c') = Z.to_nat 3)
  /\ (exists c',
        @Cameras._update Scenes.probe
          (Cameras.set_fov Scenes.small_camera 90) = Ok c'
        /\ List.length (Cameras.hits c')
           = Z.to_nat (fst (Cameras.cameraShape Scenes.small_camera))).
Proof.
  apply (@reset_then_update Scenes.probe Scenes.small_camera Scenes.viewer
           Scenes.field 3 5 90); reflexivity.
Defined.

Lemma get_point_cloud_raises_witness :
  @CameraMore.get_point_cloud Scenes.probe Cameras.Camera_default
  = Raise AttributeError.
Proof.
  apply (@get_point_cloud_raises Scenes.probe Cameras.Camera_default).
  right. left. reflexivity.
Defined.

Lemma _get_visible_area_length_witness :
  exists area,
    @Cameras._get_visible_area Scenes.probe Scenes.small_camera = Ok area
    /\ List.length area = Z.to_nat (Cameras.max_range Scenes.small_camera)
    /\ (0 < Cameras.max_range Scenes.small_camera ->
        nth_error area 0
        = Some ((Cameras.x Scenes.viewer, Cameras.y Scenes.viewer),
                (Cameras.x Scenes.viewer, Cameras.y Scenes.viewer))).
Proof.
  apply (@_get_visible_area_length Scenes.probe Scenes.small_camera
           Scenes.viewer).
  reflexivity.
Defined.

Lemma get_ground_color_defined_witness :
  exists color,
    Cameras.get_ground_color MoreScenes.meadow_camera
      (Some [((0, 0), (10, 10))%Q]) 1 7 = Ok color.
Proof.
  apply (get_ground_color_defined MoreScenes.meadow_camera MoreScenes.meadow
           (fun _ _ => Ok (90, 90, 90, 255))).
  - reflexivity.
  - reflexivity.
  - intros px py. eexists. reflexivity.
  - discriminate.
  - reflexivity.
  - split; [discriminate | reflexivity].
Defined.

Lemma p_translations_witness :
  @PIL.p MoreScenes.flat MoreScenes.shifted 10 20
  = ((fold_left (fun a t => (a + PIL.shift_x t)%Q)
        (PIL.applied (PIL.matrix MoreScenes.shifted)) 10
      * PIL._scale MoreScenes.shifted)%Q,
     (fold_left (fun a t => (a + PIL.shift_y t)%Q)
        (PIL.applied (PIL.matrix MoreScenes.shifted)) 20
      * PIL._scale MoreScenes.shifted)%Q).
Proof.
  apply (@p_translations MoreScenes.flat MoreScenes.shifted 10 20).
  repeat constructor.
Defined.

Lemma add_robot_registers_witness :
  exists st' : Worlds.State,
    @Worlds.add_robot Scenes.quiet Scenes.empty_world 7%nat
    = @Worlds.update Scenes.quiet st'
    /\ Worlds._robots (Worlds.self st')
       = Worlds._robots (Worlds.self Scenes.empty_world) ++ [7%nat]
    /\ (exists wall : Worlds.Wall,
          Worlds.walls (Worlds.self st')
          = Worlds.walls (Worlds.self Scenes.empty_world) ++ [wall]
          /\ Worlds.wall_robot wall = Some 7%nat)
    /\ Worlds.stdout st' = Worlds.stdout Scenes.empty_world.
Proof.
  apply (@add_robot_registers Scenes.quiet Scenes.empty_world 7%nat).
  intros [].
Defined.

Lemma wall_config_roundtrip_witness :
  let c := mkColor (Some "red"%string) 255 0 0 255 in
  let box :=
    Worlds.mkWall c None
      [mkLine (mkPoint 1 2) (mkPoint 3 2);
       mkLine (mkPoint 3 2) (mkPoint 3 4);
       mkLine (mkPoint 3 4) (mkPoint 1 4);
       mkLine (mkPoint 1 4) (mkPoint 1 2)] in
  let entry := WorldWalls.mkWallConfig (Color_str c) (1, 2)%Q (3, 4)%Q in
  (exists st1,
      @WorldWalls.add_wall Scenes.quiet MoreScenes.one_color
        Scenes.empty_world "red" 1 2 3 4
      = Ok (@Worlds.update Scenes.quiet st1)
      /\ Worlds.walls (Worlds.self st1)
         = Worlds.walls (Worlds.self Scenes.empty_world) ++ [box]
      /\ Worlds._robots (Worlds.self st1)
         = Worlds._robots (Worlds.self Scenes.empty_world))
  /\ WorldWalls.walls_to_json [box] = Ok [entry]
  /\ (exists st1,
        @WorldWalls.add_walls Scenes.quiet MoreScenes.one_color
          Scenes.empty_world [entry]
        = Ok (@Worlds.update Scenes.quiet st1)
        /\ Worlds.walls (Worlds.self st1)
           = Worlds.walls (Worlds.self Scenes.empty_world) ++ [box]).
Proof.
  apply (@wall_config_roundtrip Scenes.quiet MoreScenes.one_color "red"
           (mkColor (Some "red"%string) 255 0 0 255) 1 2 3 4
           Scenes.empty_world).
  reflexivity.
Defined.

Lemma obstacle_hits_records_prefix_witness :
  let blank := Cameras.mkPicture 2 8 (fun _ _ => (0, 0, 0, 0)) in
  let st' :=
    match
      Cameras.obstacle_hits Scenes.small_camera "color" 100 0 (Fin 20)
        ([Scenes.hit_A] ++ [Scenes.hit_B]) ([], blank)
    with
    | Ok r => r
    | Raise _ => ([], blank)
    end in
  Cameras.has_key "A" (fst st') = true
  <-> Cameras.has_key "A" (fst (@nil (string * Cameras.Obstacle), blank))
      = true
      \/ exists h r,
           In h [Scenes.hit_A] /\ Cameras.hit_robot h = Some r
           /\ Cameras.r_name r = "A"%string.
Proof.
  intros blank st'.
  refine (obstacle_hits_records_prefix Scenes.small_camera "color" 100 0
            (Fin 20) [Scenes.hit_A] [Scenes.hit_B] ([], blank) st'
            _ _ _ "A"%string).
  - unfold st'.
    destruct (Cameras.obstacle_hits Scenes.small_camera "color" 100 0
                (Fin 20) ([Scenes.hit_A] ++ [Scenes.hit_B]) ([], blank))
      eqn:E; [reflexivity |].
    vm_compute in E. discriminate E.
  - repeat constructor.
  - right. exists Scenes.hit_B, []. split; reflexivity.
Defined.

Lemma get_point_cloud_points_witness :
  let res :=
    match @CameraMore.get_point_cloud Scenes.probe Scenes.small_camera with
    | Ok r => r
    | Raise _ => (Scenes.small_camera, [], [])
    end in
  Forall
    (fun point =>
       exists px py d r g b,
         point = [px; py; d; r; g; b]
         /\ 0 <= px < fst (Cameras.cameraShape (fst (fst res)))
         /\ 0 <= py < snd (Cameras.cameraShape (fst (fst res)))
         /\ d <> 255)
    (snd (fst res)).
Proof.
  intros res.
  apply (@get_point_cloud_points Scenes.probe Scenes.small_camera
           (fst (fst res)) (snd (fst res)) (snd res)).
  unfold res.
  destruct (@CameraMore.get_point_cloud Scenes.probe Scenes.small_camera)
    as [[[c' points] out] |] eqn:E; [reflexivity |].
  vm_compute in E. discriminate E.
Defined.

Lemma depth_wall_band_witness :
  let c := MoreScenes.camera_facing_wall in
  let blank := Cameras.mkPicture 2 8 (fun _ _ => (0, 0, 0, 0)) in
  let pic' :=
    match Cameras.wall_pass c "depth" None 100 blank with
    | Ok p => p
    | Raise _ => blank
    end in
  exists v : Z, 0 <= v <= 255 /\ Cameras.pixel pic' 0 3 = (v, v, v, 255).
Proof.
  intros c blank pic'.
  refine (depth_wall_band c None 100 0 [Scenes.grey_wall 50]
            (Scenes.grey_wall 50) blank pic' _ _ _ _ 3 _).
  - split; [discriminate | reflexivity].
  - reflexivity.
  - reflexivity.
  - unfold pic'.
    destruct (Cameras.wall_pass c "depth" None 100 blank) eqn:E;
      [reflexivity |].
    vm_compute in E. discriminate E.
  - split; [discriminate | reflexivity].
Defined.

Lemma draw_ellipse_corners_witness :
  exists P1 P2 P3 P4 : Q * Q,
    PIL.calls (@PIL.draw_ellipse MoreScenes.flat MoreScenes.shifted 10 20 4 3)
    = PIL.calls MoreScenes.shifted
      ++ [PIL.DrawPolygon [P1; P2; P3; P4]
            (PIL.get_color (PIL.fill_style MoreScenes.shifted))
            (PIL.get_color (PIL.stroke_style MoreScenes.shifted))]
    /\ P1 = @PIL.p MoreScenes.flat MoreScenes.shifted 10 20
    /\ P3 = @PIL.p MoreScenes.flat MoreScenes.shifted (10 + 4 * 2) (20 + 3 * 2)
    /\ P4 = @PIL.p MoreScenes.flat MoreScenes.shifted 10 (20 + 3 * 2)
    /\ (fst P2 == fst P3)%Q /\ (snd P2 == snd P3)%Q.
Proof.
  apply (@draw_ellipse_corners MoreScenes.flat MoreScenes.shifted 10 20 4 3).
  repeat constructor.
Defined.

Lemma draw_arc_flat_witness :
  exists x1 y1 x2 y2 : Q,
    PIL.calls (@PIL.draw_arc MoreScenes.flat MoreScenes.shifted 10 20 30 7 0 1)
    = PIL.calls MoreScenes.shifted
      ++ [PIL.DrawLine x1 y1 x2 y2
            (PIL.get_color (PIL.stroke_style MoreScenes.shifted))
            (PIL.line_width MoreScenes.shifted)]
    /\ (x1, y1) = @PIL.p MoreScenes.flat MoreScenes.shifted 10 20
    /\ (x2, y2) = @PIL.p MoreScenes.flat MoreScenes.shifted (10 + 30) 20
    /\ y2 = y1.
Proof.
  apply (@draw_arc_flat MoreScenes.flat MoreScenes.shifted 10 20 30 7 0 1).
  repeat constructor.
Defined.


Section ConfigurationRuns.

Import PrimFloat.



End ConfigurationRuns.
